(** * Active-record lifecycle of [pkg/models/table_record/table_record.go]

    A shallow embedding of the package [record]: the [TableRecord] state
    carried by every entity, the connector it talks to, and the lifecycle
    operations [Save], [LoadByID], [Delete], [All] and [ExecQuery].

    Conventions.
    - A Go result [(T, error)] is a pair [T * option error]; [None] is [nil].
    - An entity is passed by pointer in Go and mutated in place: here every
      operation returns the entity as it is left after the call.
    - The connector is stateful and shared: its state is threaded through
      the monad [M], together with the list of calls made on it.
    - A method call on a [nil] connector is a runtime panic: [M] returns
      [None] there. *)

From Stdlib Require Import ZArith List String Ascii Bool Lia DecimalString.
Import ListNotations.

Local Open Scope Z_scope.
Local Open Scope list_scope.
Local Open Scope string_scope.

(** ** Values, errors, rows *)

(** A Go [error] value, identified with its message. *)
Definition error := string.

(** The [driver.Value]s bound to placeholders and read from columns. *)
Inductive value : Type :=
| VNull
| VInt (z : Z)
| VStr (s : string).

(** A mapped struct field, with its Go type: [int64], [string], [*int64]
    or [*string]; a pointer is [nil] or points to a value. *)
Inductive field : Type :=
| FInt64 (z : Z)
| FString (s : string)
| FPtrInt64 (p : option Z)
| FPtrString (p : option string).

(** A result whose value is a handle, meaningful only without an error. *)
Inductive res (A : Type) : Type :=
| Ok (a : A)
| Fail (err : error).
Arguments Ok {A} a.
Arguments Fail {A} err.

(** One row under the cursor of [*sqlx.Rows]: its columns by name, in the
    order of the result set. *)
Definition Row := list (string * value).

Definition Rows := list Row.

(** [sql.Result]: both accessors return [(int64, error)]. *)
Record SqlResult : Type := mkSqlResult {
  LastInsertId : Z * option error;
  RowsAffected : Z * option error
}.

(** The calls an operation makes on the connector, in the order made. *)
Inductive Call : Type :=
| CallExec (query : string) (params : list value)
| CallPrepare (query : string)
| CallPreparex (query : string)
| CallQueryx (query : string)
| CallStmtExec (query : string) (params : list value)
| CallStmtQueryx (query : string) (params : list value)
| CallStmtClose (query : string)
| CallRowsClose.

(** ** Query Builder *)

(** Modelled from the spec: the package [query_builder], whose [Builder]
    the record embeds, is missing.  The builder accumulates WHERE-style
    predicates and the parameters bound to their placeholders. *)
Record Builder : Type := mkBuilder {
  clauses : list string;
  Params : list value
}.

(** Modelled from the spec: [BuildQuery] renders the current clauses into a
    parametrized statement over the table; it reads the builder only. *)
Definition BuildQuery (b : Builder) (tableName : string) : string :=
  match clauses b with
  | [] => "SELECT * FROM " ++ tableName
  | cs => "SELECT * FROM " ++ tableName ++ " WHERE " ++ String.concat " AND " cs
  end.

(** Modelled from the spec: [ResetStmt] clears accumulated predicates and
    parameters. *)
Definition ResetStmt (b : Builder) : Builder :=
  {| clauses := []; Params := [] |}.

(** ** Fields by column name *)

Fixpoint lookup (n : string) (fs : list (string * field)) : option field :=
  match fs with
  | [] => None
  | (m, v) :: fs' => if String.eqb m n then Some v else lookup n fs'
  end.

Definition hasField (n : string) (fs : list (string * field)) : bool :=
  match lookup n fs with
  | Some _ => true
  | None => false
  end.

(** The integer under a column: that of an [int64] field or of what an
    [*int64] field points to; 0, the zero value, otherwise. *)
Definition keyOf (pk : string) (fs : list (string * field)) : Z :=
  match lookup pk fs with
  | Some (FInt64 z) => z
  | Some (FPtrInt64 (Some z)) => z
  | _ => 0
  end.

(** Column names of a struct are pairwise distinct. *)
Fixpoint distinct (ns : list string) : bool :=
  match ns with
  | [] => true
  | n :: ns' => negb (existsb (String.eqb n) ns') && distinct ns'
  end.

(** The field of that name, the first in declaration order, is replaced
    by its image. *)
Fixpoint update_field (n : string) (g : field -> field) (fs : list (string * field))
  : list (string * field) :=
  match fs with
  | [] => []
  | (m, x) :: fs' =>
      if String.eqb m n then (m, g x) :: fs'
      else (m, x) :: update_field n g fs'
  end.

(** ** Conversions of [database/sql] *)

(** What the driver receives for a field passed as a parameter: a [nil]
    pointer is NULL, any other pointer is the value it points to. *)
Definition toValue (f : field) : value :=
  match f with
  | FInt64 z => VInt z
  | FString s => VStr s
  | FPtrInt64 None => VNull
  | FPtrInt64 (Some z) => VInt z
  | FPtrString None => VNull
  | FPtrString (Some s) => VStr s
  end.

Definition formatInt (z : Z) : string := NilZero.string_of_int (Z.to_int z).

Definition digit (c : ascii) : option Z :=
  let n := Z.of_nat (nat_of_ascii c) in
  if Z.leb 48 n && Z.leb n 57 then Some (n - 48) else None.

Fixpoint digits (s : string) (acc : Z) : option Z :=
  match s with
  | EmptyString => Some acc
  | String c s' =>
      match digit c with
      | Some d => digits s' (10 * acc + d)
      | None => None
      end
  end.

(** [strconv.ParseInt(s, 10, 64)]: an optional sign, then one decimal digit
    at least, within the range of [int64]. *)
Definition parseInt (s : string) : res Z :=
  let (negative, body) :=
    match s with
    | String "-"%char s' => (true, s')
    | String "+"%char s' => (false, s')
    | _ => (false, s)
    end in
  match body with
  | EmptyString => Fail "invalid syntax"
  | _ =>
      match digits body 0 with
      | None => Fail "invalid syntax"
      | Some n =>
          let z := if negative then - n else n in
          if Z.leb (- 2 ^ 63) z && Z.ltb z (2 ^ 63) then Ok z
          else Fail "value out of range"
      end
  end.

Definition quote : string := String (ascii_of_nat 34) EmptyString.

(** Into an [int64]: an integer as it is, a string through [ParseInt],
    NULL not at all. *)
Definition toInt64 (src : value) : res Z :=
  match src with
  | VInt z => Ok z
  | VStr s =>
      match parseInt s with
      | Ok z => Ok z
      | Fail msg =>
          Fail ("converting driver.Value type string (" ++ quote ++ s ++ quote
                  ++ ") to a int64: " ++ msg)
      end
  | VNull => Fail "converting NULL to int64 is unsupported"
  end.

(** Into a [string]: a string as it is, an integer in decimal, NULL not at
    all. *)
Definition toString (src : value) : res string :=
  match src with
  | VStr s => Ok s
  | VInt z => Ok (formatInt z)
  | VNull => Fail "converting NULL to string is unsupported"
  end.

(** [convertAssign] into one destination: the field as the assignment
    leaves it, and its error.  A pointer takes [nil] from NULL; from any
    other value it is first pointed at a fresh zero value, which the
    conversion then fills, or leaves when it fails.  A field that is not
    a pointer is left as it is when the conversion fails. *)
Definition convertAssign (dest : field) (src : value) : field * option error :=
  match dest with
  | FInt64 z =>
      match toInt64 src with
      | Ok x => (FInt64 x, None)
      | Fail msg => (FInt64 z, Some msg)
      end
  | FString s =>
      match toString src with
      | Ok x => (FString x, None)
      | Fail msg => (FString s, Some msg)
      end
  | FPtrInt64 _ =>
      match src with
      | VNull => (FPtrInt64 None, None)
      | _ =>
          match toInt64 src with
          | Ok x => (FPtrInt64 (Some x), None)
          | Fail msg => (FPtrInt64 (Some 0), Some msg)
          end
      end
  | FPtrString _ =>
      match src with
      | VNull => (FPtrString None, None)
      | _ =>
          match toString src with
          | Ok x => (FPtrString (Some x), None)
          | Fail msg => (FPtrString (Some ""), Some msg)
          end
      end
  end.

(** A [nil] pointer on the way to a destination is pointed at a fresh zero
    value ([reflectx.FieldByIndexes]). *)
Definition allocIfNil (f : field) : field :=
  match f with
  | FPtrInt64 None => FPtrInt64 (Some 0)
  | FPtrString None => FPtrString (Some "")
  | other => other
  end.

(** The first column of the row that names no field. *)
Fixpoint missingField (cols : Row) (fs : list (string * field)) : option string :=
  match cols with
  | [] => None
  | (n, _) :: cols' => if hasField n fs then missingField cols' fs else Some n
  end.

(** The destinations of all the columns are taken before any is written. *)
Fixpoint allocate (cols : Row) (fs : list (string * field)) : list (string * field) :=
  match cols with
  | [] => fs
  | (n, _) :: cols' => allocate cols' (update_field n allocIfNil fs)
  end.

Definition scanError (i : nat) (name : string) (msg : error) : error :=
  "sql: Scan error on column index " ++ NilZero.string_of_uint (Nat.to_uint i)
    ++ ", name " ++ quote ++ name ++ quote ++ ": " ++ msg.

(** [Rows.Scan]: the columns are converted and assigned in order; the
    first that fails ends the scan, and what was assigned stays. *)
Fixpoint scanColumns (i : nat) (cols : Row) (fs : list (string * field))
  : list (string * field) * option error :=
  match cols with
  | [] => (fs, None)
  | (n, v) :: cols' =>
      match lookup n fs with
      | None => scanColumns (S i) cols' fs
      | Some f =>
          let (f', e) := convertAssign f v in
          let fs' := update_field n (fun _ => f') fs in
          match e with
          | Some msg => (fs', Some (scanError i n msg))
          | None => scanColumns (S i) cols' fs'
          end
      end
  end.

Section Core.

(** The storage behind the connector. *)
Context {DB : Type}.

(** ** Connector *)

(** [db.SQLConnector], the external collaborator.  Each call may change the
    storage and may fail.  A prepared statement is its text together with
    the connector it was prepared on. *)
Record SQLConnector : Type := mkSQLConnector {
  conn_Exec : string -> list value -> DB -> res SqlResult * DB;
  conn_Prepare : string -> DB -> option error * DB;
  conn_Preparex : string -> DB -> option error * DB;
  conn_Queryx : string -> list value -> DB -> res Rows * DB;
  conn_StmtExec : string -> list value -> DB -> res SqlResult * DB;
  conn_StmtQueryx : string -> list value -> DB -> res Rows * DB
}.

Record Stmt : Type := mkStmt {
  stmt_conn : SQLConnector;
  stmt_query : string
}.

(** ** Data model *)

(** [TableRecord]: the persistence state embedded in every entity. *)
Record TableRecord : Type := mkTableRecord {
  isNew : bool;
  isReadOnly : bool;
  builder : Builder;
  db : option SQLConnector
}.

(** An entity type implementing [TableRecordInterface]: a struct whose
    exported fields are mapped to columns by name, in declaration order,
    and which embeds a [TableRecord].  The key column names one of the
    fields ([keyed]): the spec has the Field Mapper fail on a type whose
    declared key names no field, and such types are not entities here. *)
Record Entity : Type := mkEntity {
  tableName : string;
  primaryKeyName : string;
  fields : list (string * field);
  tr : TableRecord;
  keyed : hasField primaryKeyName fields = true
}.

Definition NewTableModel := unit -> Entity.

Definition GetTableRecord (ti : Entity) : TableRecord := tr ti.
Definition GetPrimaryKeyName (ti : Entity) : string := primaryKeyName ti.
Definition GetTableName (ti : Entity) : string := tableName ti.

(** Modelled from the spec: the entity types implementing the interface
    are missing; [GetPrimaryKeyValue] reads the integer field mapped to the
    primary-key column (0, the zero value, when it holds no integer). *)
Definition GetPrimaryKeyValue (ti : Entity) : Z :=
  keyOf (primaryKeyName ti) (fields ti).

Definition with_tr (ti : Entity) (t : TableRecord) : Entity :=
  {| tableName := tableName ti; primaryKeyName := primaryKeyName ti;
     fields := fields ti; tr := t; keyed := keyed ti |}.

(** The entity with its fields as a scan left them.  A scan keeps the
    columns of the struct, so the key column still names a field and the
    second branch is never taken. *)
Definition with_fields (ti : Entity) (fs : list (string * field)) : Entity :=
  match bool_dec (hasField (primaryKeyName ti) fs) true with
  | left H =>
      {| tableName := tableName ti; primaryKeyName := primaryKeyName ti;
         fields := fs; tr := tr ti; keyed := H |}
  | right _ => ti
  end.

(** [NewTableRecord]: no connector is attached yet. *)
Definition NewTableRecord (isNew0 isReadOnly0 : bool) : TableRecord :=
  {| isNew := isNew0; isReadOnly := isReadOnly0;
     builder := {| clauses := []; Params := [] |}; db := None |}.

Definition GetDB (t : TableRecord) : option SQLConnector := db t.

Definition IsNew (t : TableRecord) : bool := isNew t.

Definition SetIsNew (new : bool) (t : TableRecord) : TableRecord :=
  {| isNew := new; isReadOnly := isReadOnly t; builder := builder t; db := db t |}.

Definition SetSQLConnection (d : option SQLConnector) (t : TableRecord) : TableRecord :=
  {| isNew := isNew t; isReadOnly := isReadOnly t; builder := builder t; db := d |}.

Definition SetBuilder (b : Builder) (t : TableRecord) : TableRecord :=
  {| isNew := isNew t; isReadOnly := isReadOnly t; builder := b; db := db t |}.

Definition getTableRecordConnection (ti : Entity) : option SQLConnector :=
  db (GetTableRecord ti).

(** ** Field Mapper and query generators *)

(** Modelled from the spec: the file of this package that defines
    [GetFieldMapper] and the query generators is missing.  The mapper
    yields the ordered column names and the mapping from column name to
    field.  Of the two failures the spec gives it, neither arises on an
    [Entity]: the value is a struct, and its key column names a field. *)
Definition GetFieldMapper (ti : Entity) : list string * list (string * field) :=
  (map fst (fields ti), fields ti).

Definition AllField (ti : Entity) : string :=
  let (fieldName, _) := GetFieldMapper ti in
  String.concat "," fieldName.

Definition noPrimary (ti : Entity) : list (string * field) :=
  filter (fun f => negb (String.eqb (fst f) (primaryKeyName ti))) (fields ti).

(** Modelled from the spec: the values to write, primary key excluded, in
    Field Map order, each as the driver receives it. *)
Definition getFieldsValueNoPrimary (ti : Entity) : list value :=
  map (fun f => toValue (snd f)) (noPrimary ti).

(** Modelled from the spec:
    [INSERT INTO <table> (<cols except PK>) VALUES (<placeholders>)]. *)
Definition genSaveQuery (ti : Entity) : string :=
  let cols := map fst (noPrimary ti) in
  "INSERT INTO " ++ tableName ti ++ " (" ++ String.concat "," cols
    ++ ") VALUES (" ++ String.concat "," (map (fun _ => "?") cols) ++ ")".

(** Modelled from the spec:
    [UPDATE <table> SET <col=?,...> WHERE <PK> = ?]. *)
Definition genUpdateQuery (ti : Entity) : string :=
  let cols := map fst (noPrimary ti) in
  "UPDATE " ++ tableName ti ++ " SET "
    ++ String.concat "," (map (fun c => c ++ "=?") cols)
    ++ " WHERE " ++ primaryKeyName ti ++ " = ?".

(** Modelled from the spec: [DELETE FROM <table> WHERE <PK> = ?]. *)
Definition genDeleteQuery (ti : Entity) : string :=
  "DELETE FROM " ++ tableName ti ++ " WHERE " ++ primaryKeyName ti ++ " = ?".

(** The statement text built inline by [LoadByID]. *)
Definition selectByID (ti : Entity) : string :=
  "SELECT " ++ AllField ti ++ " FROM " ++ GetTableName ti
    ++ " WHERE " ++ GetPrimaryKeyName ti ++ " = ?".

(** The statement text built inline by [All]. *)
Definition selectAll (pivot : Entity) : string :=
  "SELECT " ++ AllField pivot ++ " FROM " ++ GetTableName pivot.

(** ** Binding a row into a struct *)

(** [rows.StructScan(dest)] of sqlx.  A column that names no field is an
    error before anything is written (the Go type name that ends its
    message is left out).  Otherwise the destinations of all the columns
    are taken, which points their [nil] pointers at zero values, and the
    columns are scanned in order: on a conversion error the fields written
    so far stay written.  The embedded [TableRecord] is not a mapped field
    and is never written. *)
Definition StructScan (r : Row) (dest : Entity) : Entity * option error :=
  match missingField r (fields dest) with
  | Some n => (dest, Some ("missing destination name " ++ n))
  | None =>
      let (fs, e) := scanColumns 0 r (allocate r (fields dest)) in
      (with_fields dest fs, e)
  end.

(** ** The monad of connector effects *)

Record World : Type := mkWorld {
  store : DB;
  log : list Call
}.

(** [None]: the goroutine panicked on a [nil] connector. *)
Definition M (A : Type) : Type := World -> option (A * World).

Definition ret {A : Type} (a : A) : M A := fun w => Some (a, w).

Definition bind {A B : Type} (m : M A) (k : A -> M B) : M B :=
  fun w => match m w with
           | None => None
           | Some (a, w') => k a w'
           end.

Definition panic {A : Type} : M A := fun _ => None.

Definition emit (c : Call) : M unit :=
  fun w => Some (tt, {| store := store w; log := (log w ++ [c])%list |}).

Definition on_store {A : Type} (f : DB -> A * DB) : M A :=
  fun w => let (a, s) := f (store w) in Some (a, {| store := s; log := log w |}).

End Core.

Arguments SQLConnector DB : clear implicits.
Arguments Stmt DB : clear implicits.
Arguments TableRecord DB : clear implicits.
Arguments Entity DB : clear implicits.
Arguments NewTableModel DB : clear implicits.
Arguments World DB : clear implicits.
Arguments M DB A : clear implicits.

Declare Scope go_scope.
Delimit Scope go_scope with go.
Notation "x <- c ;; k" := (bind c (fun x => k))
  (at level 100, c at next level, right associativity) : go_scope.
Notation "c ;;; k" := (bind c (fun _ => k))
  (at level 100, right associativity) : go_scope.

Local Open Scope go_scope.

Section Lifecycle.

Context {DB : Type}.

Local Abbreviation SQLConnector := (SQLConnector DB).
Local Abbreviation Stmt := (Stmt DB).
Local Abbreviation TableRecord := (TableRecord DB).
Local Abbreviation Entity := (Entity DB).
Local Abbreviation NewTableModel := (NewTableModel DB).
Local Abbreviation World := (World DB).
Local Abbreviation M := (M DB).

(** ** Calls on the connector *)

(** Every call is recorded, then run on the storage.  [d] is the connector
    reference held by the record; calling through [nil] panics. *)

Definition db_Exec (d : option SQLConnector) (query : string) (params : list value)
  : M (res SqlResult) :=
  match d with
  | None => panic
  | Some c => emit (CallExec query params) ;;; on_store (conn_Exec c query params)
  end.

Definition db_Prepare (d : option SQLConnector) (query : string) : M (res Stmt) :=
  match d with
  | None => panic
  | Some c =>
      emit (CallPrepare query) ;;;
      err <- on_store (conn_Prepare c query) ;;
      match err with
      | Some e => ret (Fail e)
      | None => ret (Ok {| stmt_conn := c; stmt_query := query |})
      end
  end.

Definition db_Preparex (d : option SQLConnector) (query : string) : M (res Stmt) :=
  match d with
  | None => panic
  | Some c =>
      emit (CallPreparex query) ;;;
      err <- on_store (conn_Preparex c query) ;;
      match err with
      | Some e => ret (Fail e)
      | None => ret (Ok {| stmt_conn := c; stmt_query := query |})
      end
  end.

Definition db_Queryx (d : option SQLConnector) (query : string) : M (res Rows) :=
  match d with
  | None => panic
  | Some c => emit (CallQueryx query) ;;; on_store (conn_Queryx c query [])
  end.

Definition stmt_Exec (stmt : Stmt) (params : list value) : M (res SqlResult) :=
  emit (CallStmtExec (stmt_query stmt) params) ;;;
  on_store (conn_StmtExec (stmt_conn stmt) (stmt_query stmt) params).

Definition stmt_Queryx (stmt : Stmt) (params : list value) : M (res Rows) :=
  emit (CallStmtQueryx (stmt_query stmt) params) ;;;
  on_store (conn_StmtQueryx (stmt_conn stmt) (stmt_query stmt) params).

Definition stmt_Close (stmt : Stmt) : M unit :=
  emit (CallStmtClose (stmt_query stmt)).

Definition rows_Close : M unit := emit CallRowsClose.

(** ** Lifecycle operations *)

(** [TableRecord.executeSaveUpdateQuery] *)
Definition executeSaveUpdateQuery (t : TableRecord) (query : string)
  (params : list value) : M (Z * option error) :=
  r <- db_Exec (db t) query params ;;
  match r with
  | Fail err => ret (0, Some err)
  | Ok result =>
      match LastInsertId result with
      | (_, Some err) => ret (0, Some err)
      | (lastID, None) => ret (lastID, None)
      end
  end.

(** [LoadFromRow]: scan the row under the cursor into the entity, then mark
    it persisted and reattach its own connector.  On a scan error the
    entity is left as the scan left it. *)
Definition LoadFromRow (r : Row) (tri : Entity) : Entity * option error :=
  match StructScan r tri with
  | (tri', Some err) => (tri', Some err)
  | (tri', None) =>
      (with_tr tri'
         (SetSQLConnection (db (GetTableRecord tri'))
            (SetIsNew false (GetTableRecord tri'))),
       None)
  end.

(** [LoadByID]: the two deferred closes run, last registered first, on
    every return that follows their registration. *)
Definition LoadByID (ti : Entity) (id : Z) : M (Entity * option error) :=
  let d := getTableRecordConnection ti in
  let query := selectByID ti in
  let params := [VInt id] in
  p <- db_Preparex d query ;;
  match p with
  | Fail err => ret (ti, Some err)
  | Ok stmt =>
      q <- stmt_Queryx stmt params ;;
      match q with
      | Fail err => stmt_Close stmt ;;; ret (ti, Some err)
      | Ok rows =>
          let out :=
            match rows with
            | r :: _ => LoadFromRow r ti
            | [] => (ti, None)
            end in
          rows_Close ;;; stmt_Close stmt ;;; ret out
      end
  end.

(** [save]: insert, reload by the generated key, mark persisted. *)
Definition save (ti : Entity) : M (Entity * option error) :=
  let t := GetTableRecord ti in
  let query := genSaveQuery ti in
  let fValue := getFieldsValueNoPrimary ti in
  x <- executeSaveUpdateQuery t query fValue ;;
  match x with
  | (_, Some err) => ret (ti, Some err)
  | (id, None) =>
      y <- LoadByID ti id ;;
      match y with
      | (ti', Some err) => ret (ti', Some err)
      | (ti', None) => ret (with_tr ti' (SetIsNew false (GetTableRecord ti')), None)
      end
  end.

(** [update]: write the non-key values keyed by the current primary key,
    then reload by that key. *)
Definition update (ti : Entity) : M (Entity * option error) :=
  let t := GetTableRecord ti in
  let query := genUpdateQuery ti in
  let fValue := getFieldsValueNoPrimary ti in
  x <- executeSaveUpdateQuery t query (fValue ++ [VInt (GetPrimaryKeyValue ti)])%list ;;
  match x with
  | (_, Some err) => ret (ti, Some err)
  | (_, None) =>
      y <- LoadByID ti (GetPrimaryKeyValue ti) ;;
      match y with
      | (ti', Some err) => ret (ti', Some err)
      | (ti', None) => ret (ti', None)
      end
  end.

(** [Save] *)
Definition Save (ti : Entity) : M (Entity * option error) :=
  let t := GetTableRecord ti in
  if isReadOnly t then ret (ti, Some "Read-only model")
  else if isNew t then
    x <- save ti ;;
    match x with
    | (ti', Some err) => ret (ti', Some err)
    | (ti', None) => ret (ti', None)
    end
  else
    x <- update ti ;;
    match x with
    | (ti', Some err) => ret (ti', Some err)
    | (ti', None) => ret (ti', None)
    end.

(** The row loop shared in shape by [All] and [ExecQuery]: one fresh entity
    per row; the first row that fails to load ends the loop with [nil] and
    its error. *)
Fixpoint loadRows (ntm : NewTableModel) (rows : Rows) (result : list Entity)
  : list Entity * option error :=
  match rows with
  | [] => (result, None)
  | r :: rows' =>
      let ti := ntm tt in
      match LoadFromRow r ti with
      | (_, Some err) => ([], Some err)
      | (ti', None) => loadRows ntm rows' (result ++ [ti'])%list
      end
  end.

(** [All]: neither the rows nor a statement are closed by the code. *)
Definition All (ntm : NewTableModel) : M (list Entity * option error) :=
  let pivot := ntm tt in
  let d := db (GetTableRecord pivot) in
  let query := selectAll pivot in
  q <- db_Queryx d query ;;
  match q with
  | Fail err => ret ([], Some err)
  | Ok rows => ret (loadRows ntm rows [])
  end.

(** [Delete] *)
Definition Delete (ti : Entity) : M (Z * option error) :=
  let d := getTableRecordConnection ti in
  p <- db_Prepare d (genDeleteQuery ti) ;;
  match p with
  | Fail err => ret (0, Some err)
  | Ok stmt =>
      e <- stmt_Exec stmt [VInt (GetPrimaryKeyValue ti)] ;;
      match e with
      | Fail err => stmt_Close stmt ;;; ret (0, Some err)
      | Ok result =>
          match RowsAffected result with
          | (_, Some err) => stmt_Close stmt ;;; ret (0, None)
          | (rows, None) => stmt_Close stmt ;;; ret (rows, None)
          end
      end
  end.

(** [TableRecord.PrepareStmt] *)
Definition PrepareStmt (t : TableRecord) (tableName : string) : M (res Stmt) :=
  let query := BuildQuery (builder t) tableName in
  p <- db_Preparex (db t) query ;;
  match p with
  | Fail err => ret (Fail err)
  | Ok stmt => ret (Ok stmt)
  end.

(** [ExecQuery]: the entity is returned too, since the call may reset the
    builder it carries. *)
Definition ExecQuery (ti : Entity) (ntm : NewTableModel)
  : M (Entity * (list Entity * option error)) :=
  let t := GetTableRecord ti in
  p <- PrepareStmt t (GetTableName ti) ;;
  match p with
  | Fail err => ret (ti, ([], Some err))
  | Ok stmt =>
      q <- stmt_Queryx stmt (Params (builder t)) ;;
      match q with
      | Fail err => stmt_Close stmt ;;; ret (ti, ([], Some err))
      | Ok rows =>
          match loadRows ntm rows [] with
          | (_, Some err) =>
              rows_Close ;;; stmt_Close stmt ;;; ret (ti, ([], Some err))
          | (tiList, None) =>
              let ti' := with_tr ti (SetBuilder (ResetStmt (builder (GetTableRecord ti)))
                                       (GetTableRecord ti)) in
              rows_Close ;;; stmt_Close stmt ;;; ret (ti', (tiList, None))
          end
      end
  end.

End Lifecycle.

(** ** Rows and storage, as the properties speak of them *)

(** The key field is an integer, as [GetPrimaryKeyValue] reads it. *)
Definition intKey {DB : Type} (ti : Entity DB) : bool :=
  match lookup (primaryKeyName ti) (fields ti) with
  | Some (FInt64 _) | Some (FPtrInt64 _) => true
  | _ => false
  end.

(** The column names a field, and its value converts into that field. *)
Definition scans (fs : list (string * field)) (cv : string * value) : bool :=
  match lookup (fst cv) fs with
  | Some f =>
      match snd (convertAssign f (snd cv)) with
      | None => true
      | Some _ => false
      end
  | None => false
  end.

(** A row answers a select by key [id] on column [pk]: wherever it carries
    that column, the column holds [id]. *)
Definition keyedRow (pk : string) (id : Z) (r : Row) : Prop :=
  Forall (fun cv => fst cv = pk -> snd cv = VInt id) r.

(** The connector answers the select statement of [LoadByID] with rows of
    the key asked for. *)
Definition selectsByKey {DB : Type} (c : SQLConnector DB) (ti : Entity DB) : Prop :=
  forall id s rows s',
    conn_StmtQueryx c (selectByID ti) [VInt id] s = (Ok rows, s') ->
    Forall (keyedRow (primaryKeyName ti) id) rows.

(** Loading this row into a fresh entity of the constructor fails. *)
Definition scanFails {DB : Type} (ntm : NewTableModel DB) (r : Row) : Prop :=
  match snd (StructScan r (ntm tt)) with
  | Some _ => True
  | None => False
  end.

(** The connector keeps what the insert statement of the entity writes,
    from the storage [s0] on: executed with as many parameters as the
    statement names columns, the insert succeeds, generates a key, and the
    storage then holds, under that key, each parameter in the column of its
    position; preparing the select by key keeps what the storage holds; and
    the select by a key that the storage holds returns first the row held,
    the key in the key column. *)
Definition keepsRows {DB : Type} (c : SQLConnector DB) (ti : Entity DB) (s0 : DB)
  : Prop :=
  exists holds : DB -> Z -> Row -> Prop,
    (forall params,
        List.length params = List.length (noPrimary ti) ->
        exists result id s1,
          conn_Exec c (genSaveQuery ti) params s0 = (Ok result, s1)
          /\ LastInsertId result = (id, None)
          /\ holds s1 id (combine (map fst (noPrimary ti)) params))
    /\ (forall s id r,
           holds s id r ->
           exists s1,
             conn_Preparex c (selectByID ti) s = (None, s1) /\ holds s1 id r)
    /\ (forall s id r,
           holds s id r ->
           exists rest s1,
             conn_StmtQueryx c (selectByID ti) [VInt id] s
               = (Ok (((primaryKeyName ti, VInt id) :: r) :: rest), s1)
             /\ holds s1 id r).

(** What no operation changes on an entity: its table, its key column, its
    columns and their order, and, in its record, the read-only flag, the
    connector and the builder. *)
Definition keepsIdentity {DB : Type} (ti ti' : Entity DB) : Prop :=
  tableName ti' = tableName ti
  /\ primaryKeyName ti' = primaryKeyName ti
  /\ map fst (fields ti') = map fst (fields ti)
  /\ isReadOnly (tr ti') = isReadOnly (tr ti)
  /\ db (tr ti') = db (tr ti)
  /\ builder (tr ti') = builder (tr ti).

(** The entity is marked persisted and carries the record state a fresh
    entity of the constructor has. *)
Definition loadedFrom {DB : Type} (ntm : NewTableModel DB) (e : Entity DB) : Prop :=
  isNew (tr e) = false /\ keepsIdentity (ntm tt) e.

(** ** A reference connector: one table held in memory *)

Module Mem.

(** Rows are kept by key with the values of the non-key columns, in column
    order; keys are handed out in sequence. *)
Record Store : Type := mkStore {
  next_id : Z;
  table : list (Z * list value)
}.

Section Table.

Variable pk : string.
Variable cols : list string.

Definition rowOf (r : Z * list value) : Row :=
  (pk, VInt (fst r)) :: combine cols (snd r).

Definition hasKey (id : Z) (r : Z * list value) : bool := Z.eqb (fst r) id.

Definition keyParam (params : list value) : option Z :=
  match params with
  | [VInt id] => Some id
  | _ => None
  end.

Definition Exec (query : string) (params : list value) (s : Store)
  : res SqlResult * Store :=
  if String.prefix "INSERT" query then
    (Ok {| LastInsertId := (next_id s, None); RowsAffected := (1, None) |},
     {| next_id := next_id s + 1;
        table := (table s ++ [(next_id s, params)])%list |})
  else if String.prefix "UPDATE" query then
    match last params VNull with
    | VInt id =>
        (Ok {| LastInsertId := (0, None);
               RowsAffected := (Z.of_nat (List.length (filter (hasKey id) (table s))), None) |},
         {| next_id := next_id s;
            table := map (fun r => if hasKey id r then (id, removelast params) else r)
                         (table s) |})
    | _ => (Fail "Mem: key expected", s)
    end
  else (Fail "Mem: statement not supported", s).

Definition Prepare (query : string) (s : Store) : option error * Store := (None, s).

Definition Queryx (query : string) (params : list value) (s : Store)
  : res Rows * Store :=
  (Ok (map rowOf (table s)), s).

Definition StmtExec (query : string) (params : list value) (s : Store)
  : res SqlResult * Store :=
  match keyParam params with
  | Some id =>
      (Ok {| LastInsertId := (0, None);
             RowsAffected := (Z.of_nat (List.length (filter (hasKey id) (table s))), None) |},
       {| next_id := next_id s;
          table := filter (fun r => negb (hasKey id r)) (table s) |})
  | None => (Fail "Mem: key expected", s)
  end.

Definition StmtQueryx (query : string) (params : list value) (s : Store)
  : res Rows * Store :=
  match keyParam params with
  | Some id => (Ok (map rowOf (filter (hasKey id) (table s))), s)
  | None => (Ok (map rowOf (table s)), s)
  end.

Definition conn : SQLConnector Store :=
  {| conn_Exec := Exec;
     conn_Prepare := Prepare;
     conn_Preparex := Prepare;
     conn_Queryx := Queryx;
     conn_StmtExec := StmtExec;
     conn_StmtQueryx := StmtQueryx |}.

End Table.

(** Connectors that misbehave at one point and follow [c] elsewhere. *)

(** Every [Preparex] fails. *)
Definition failPreparex (err : error) (c : SQLConnector Store) : SQLConnector Store :=
  {| conn_Exec := conn_Exec c;
     conn_Prepare := conn_Prepare c;
     conn_Preparex := fun _ s => (Some err, s);
     conn_Queryx := conn_Queryx c;
     conn_StmtExec := conn_StmtExec c;
     conn_StmtQueryx := conn_StmtQueryx c |}.

Definition hideRowsAffected (err : error) (r : res SqlResult * Store)
  : res SqlResult * Store :=
  match r with
  | (Ok result, s) =>
      (Ok {| LastInsertId := LastInsertId result; RowsAffected := (0, Some err) |}, s)
  | other => other
  end.

(** The driver runs the statement but cannot report the affected rows. *)
Definition failRowsAffected (err : error) (c : SQLConnector Store) : SQLConnector Store :=
  {| conn_Exec := conn_Exec c;
     conn_Prepare := conn_Prepare c;
     conn_Preparex := conn_Preparex c;
     conn_Queryx := conn_Queryx c;
     conn_StmtExec := fun q ps s => hideRowsAffected err (conn_StmtExec c q ps s);
     conn_StmtQueryx := conn_StmtQueryx c |}.

Definition spoilLast (bad : Row) (r : res Rows * Store) : res Rows * Store :=
  match r with
  | (Ok rows, s) => (Ok (removelast rows ++ [bad])%list, s)
  | other => other
  end.

(** The last row of every result set is replaced by [bad]. *)
Definition failLastRow (bad : Row) (c : SQLConnector Store) : SQLConnector Store :=
  {| conn_Exec := conn_Exec c;
     conn_Prepare := conn_Prepare c;
     conn_Preparex := conn_Preparex c;
     conn_Queryx := fun q ps s => spoilLast bad (conn_Queryx c q ps s);
     conn_StmtExec := conn_StmtExec c;
     conn_StmtQueryx := fun q ps s => spoilLast bad (conn_StmtQueryx c q ps s) |}.

(** A row with NULL in the key column, which an [int64] key cannot take. *)
Definition nullKey : Row := [("id", VNull)].

(** Every [Prepare] fails. *)
Definition failPrepare (err : error) (c : SQLConnector Store) : SQLConnector Store :=
  {| conn_Exec := conn_Exec c;
     conn_Prepare := fun _ s => (Some err, s);
     conn_Preparex := conn_Preparex c;
     conn_Queryx := conn_Queryx c;
     conn_StmtExec := conn_StmtExec c;
     conn_StmtQueryx := conn_StmtQueryx c |}.

(** Every [Exec] fails, and nothing is written. *)
Definition failExec (err : error) (c : SQLConnector Store) : SQLConnector Store :=
  {| conn_Exec := fun _ _ s => (Fail err, s);
     conn_Prepare := conn_Prepare c;
     conn_Preparex := conn_Preparex c;
     conn_Queryx := conn_Queryx c;
     conn_StmtExec := conn_StmtExec c;
     conn_StmtQueryx := conn_StmtQueryx c |}.

Definition hideLastInsertId (err : error) (r : res SqlResult * Store)
  : res SqlResult * Store :=
  match r with
  | (Ok result, s) =>
      (Ok {| LastInsertId := (0, Some err); RowsAffected := RowsAffected result |}, s)
  | other => other
  end.

(** The driver runs the statement but cannot report a generated key. *)
Definition failLastInsertId (err : error) (c : SQLConnector Store) : SQLConnector Store :=
  {| conn_Exec := fun q ps s => hideLastInsertId err (conn_Exec c q ps s);
     conn_Prepare := conn_Prepare c;
     conn_Preparex := conn_Preparex c;
     conn_Queryx := conn_Queryx c;
     conn_StmtExec := conn_StmtExec c;
     conn_StmtQueryx := conn_StmtQueryx c |}.

(** Every select by key finds nothing. *)
Definition findsNothing (c : SQLConnector Store) : SQLConnector Store :=
  {| conn_Exec := conn_Exec c;
     conn_Prepare := conn_Prepare c;
     conn_Preparex := conn_Preparex c;
     conn_Queryx := conn_Queryx c;
     conn_StmtExec := conn_StmtExec c;
     conn_StmtQueryx := fun _ _ s => (Ok [], s) |}.

(** The table [users] of the repository's test. *)
Definition users : SQLConnector Store := conn "id" ["name"; "lastname"; "gender"].

Definition empty : World Store :=
  {| store := {| next_id := 1; table := [] |}; log := [] |}.

(** A storage already holding two users. *)
Definition two : World Store :=
  {| store := {| next_id := 3;
                 table := [(1, [VStr "Mario"; VStr "Rossi"; VStr "M"]);
                           (2, [VStr "Anna"; VStr "Bianchi"; VStr "F"])] |};
     log := [] |}.

(** The fields of the test's user other than the key are pointers: what
    is given is what the field points to, and NULL is the [nil] pointer. *)
Definition ptr (v : value) : field :=
  match v with
  | VNull => FPtrString None
  | VInt z => FPtrInt64 (Some z)
  | VStr s => FPtrString (Some s)
  end.

Definition user (c : SQLConnector Store) (isNew0 isReadOnly0 : bool)
  (id : Z) (name lastname gender : value) : Entity Store :=
  {| tableName := "users";
     primaryKeyName := "id";
     fields := [("id", FInt64 id); ("name", ptr name); ("lastname", ptr lastname);
                ("gender", ptr gender)];
     tr := SetSQLConnection (Some c) (NewTableRecord isNew0 isReadOnly0);
     keyed := eq_refl |}.

(** The constructor handed to [All] and [ExecQuery]. *)
Definition NewUser (c : SQLConnector Store) : NewTableModel Store :=
  fun _ => user c true false 0 VNull VNull VNull.

(** The entity of the test: Mario Rossi, not yet saved. *)
Definition mario : Entity Store :=
  user users true false 0 (VStr "Mario") (VStr "Rossi") (VStr "M").

(** An entity with a predicate staged on its builder. *)
Definition staged (c : SQLConnector Store) : Entity Store :=
  let u := user c false false 1 (VStr "Mario") (VStr "Rossi") (VStr "M") in
  with_tr u (SetBuilder {| clauses := ["gender = ?"]; Params := [VStr "M"] |} (tr u)).

End Mem.

(** * Properties *)

(** Running a computation of [M]: unfold the monad, evaluate. *)
Ltac run :=
  unfold bind, ret, emit, on_store, panic; simpl.

Section Properties.

Context {DB : Type}.

Local Abbreviation SQLConnector := (SQLConnector DB).
Local Abbreviation Entity := (Entity DB).
Local Abbreviation NewTableModel := (NewTableModel DB).
Local Abbreviation World := (World DB).

(** ** Field maps: reading and writing a field by column name *)

Lemma hasField_In n fs : hasField n fs = true <-> In n (map fst fs).
Proof.
  unfold hasField. induction fs as [|[k x] fs IH]; simpl.
  - split; [discriminate|contradiction].
  - destruct (String.eqb_spec k n) as [->|Hne]; [tauto|].
    rewrite IH. split; [tauto|]. intros [H|H]; [contradiction|exact H].
Qed.

Lemma existsb_eqb_In n ns :
  existsb (String.eqb n) ns = false -> ~ In n ns.
Proof.
  induction ns as [|k ns IH]; simpl; intros H; [tauto|].
  apply orb_false_iff in H as [H1 H2].
  intros [->|Hin]; [now rewrite String.eqb_refl in H1 | now apply IH].
Qed.

(** With distinct column names, a field is read back by its name. *)
Lemma distinct_lookup fs n v :
  distinct (map fst fs) = true -> In (n, v) fs -> lookup n fs = Some v.
Proof.
  induction fs as [|[k x] fs IH]; simpl; intros Hd Hin; [contradiction|].
  apply andb_true_iff in Hd as [Hk Hd]. apply negb_true_iff in Hk.
  destruct Hin as [Heq|Hin].
  - injection Heq as -> ->. now rewrite String.eqb_refl.
  - destruct (String.eqb_spec k n) as [->|Hne]; [|now apply IH].
    exfalso. apply (existsb_eqb_In _ _ Hk). now apply (in_map fst) in Hin.
Qed.

Lemma update_field_names n g fs :
  map fst (update_field n g fs) = map fst fs.
Proof.
  induction fs as [|[k x] fs IH]; simpl; [reflexivity|].
  destruct (String.eqb k n); simpl; [reflexivity|now rewrite IH].
Qed.

Lemma lookup_update_same n g fs :
  lookup n (update_field n g fs) = option_map g (lookup n fs).
Proof.
  induction fs as [|[k x] fs IH]; simpl; [reflexivity|].
  destruct (String.eqb k n) eqn:E; simpl; rewrite E; [reflexivity|exact IH].
Qed.

Lemma lookup_update_other n g fs m :
  m <> n -> lookup m (update_field n g fs) = lookup m fs.
Proof.
  intros Hm. induction fs as [|[k x] fs IH]; simpl; [reflexivity|].
  destruct (String.eqb_spec k n) as [->|Hne]; simpl.
  - destruct (String.eqb_spec n m); [congruence|reflexivity].
  - destruct (String.eqb k m); [reflexivity|exact IH].
Qed.

Lemma allocate_names cols : forall fs,
  map fst (allocate cols fs) = map fst fs.
Proof.
  induction cols as [|[n v] cols IH]; simpl; intros fs; [reflexivity|].
  now rewrite IH, update_field_names.
Qed.

Lemma scanColumns_names cols : forall i fs,
  map fst (fst (scanColumns i cols fs)) = map fst fs.
Proof.
  induction cols as [|[n v] cols IH]; simpl; intros i fs; [reflexivity|].
  destruct (lookup n fs) as [f|]; [|apply IH].
  destruct (convertAssign f v) as [f' [msg|]]; simpl.
  - apply update_field_names.
  - now rewrite IH, update_field_names.
Qed.

(** ** What a scan leaves alone *)

Lemma with_fields_spec (ti : Entity) (fs : list (string * field)) :
  map fst fs = map fst (fields ti) ->
  fields (with_fields ti fs) = fs
  /\ tableName (with_fields ti fs) = tableName ti
  /\ primaryKeyName (with_fields ti fs) = primaryKeyName ti
  /\ tr (with_fields ti fs) = tr ti.
Proof.
  intros Hn. unfold with_fields.
  destruct (bool_dec (hasField (primaryKeyName ti) fs) true) as [H|H].
  - repeat split.
  - exfalso. apply H. apply hasField_In. rewrite Hn. apply hasField_In, keyed.
Qed.

(** A scan, whatever its outcome, keeps the table, the key column, the
    columns and the record of the entity. *)
Lemma StructScan_frame (r : Row) (ti ti' : Entity) (e : option error) :
  StructScan r ti = (ti', e) ->
  tableName ti' = tableName ti
  /\ primaryKeyName ti' = primaryKeyName ti
  /\ map fst (fields ti') = map fst (fields ti)
  /\ tr ti' = tr ti.
Proof.
  unfold StructScan. destruct (missingField r (fields ti)) as [n|].
  - intros H. inversion H. repeat split.
  - destruct (scanColumns 0 r (allocate r (fields ti))) as [fs e0] eqn:E.
    intros H. inversion H; subst.
    assert (Hn : map fst fs = map fst (fields ti)).
    { change fs with (fst (fs, e)). rewrite <- E.
      now rewrite scanColumns_names, allocate_names. }
    destruct (with_fields_spec ti fs Hn) as (H1 & H2 & H3 & H4).
    repeat split; congruence.
Qed.

(** The fields a scan leaves, and its error. *)
Lemma StructScan_fields (r : Row) (ti : Entity) :
  missingField r (fields ti) = None ->
  fields (fst (StructScan r ti)) = fst (scanColumns 0 r (allocate r (fields ti)))
  /\ snd (StructScan r ti) = snd (scanColumns 0 r (allocate r (fields ti))).
Proof.
  intros Hm. unfold StructScan. rewrite Hm.
  destruct (scanColumns 0 r (allocate r (fields ti))) as [fs e] eqn:E. simpl.
  split; [|reflexivity]. apply with_fields_spec.
  change fs with (fst (fs, e)). rewrite <- E.
  now rewrite scanColumns_names, allocate_names.
Qed.

(** ** Read-only entities *)

(** C2. [Save] on an entity whose record is read-only fails with the
    read-only error; the connector receives no call and the storage is the
    one the call started from. *)
Theorem Save_read_only (ti : Entity) (w : World) :
  isReadOnly (GetTableRecord ti) = true ->
  Save ti w = Some ((ti, Some "Read-only model"), w).
Proof.
  intros Hro. unfold Save. rewrite Hro. reflexivity.
Qed.

(** [Delete] never consults the read-only flag: it runs alike whatever the
    flags of the record are. *)
Lemma Delete_ignores_flags (ti : Entity) (n r : bool) (w : World) :
  Delete (with_tr ti {| isNew := n; isReadOnly := r;
                        builder := builder (tr ti); db := db (tr ti) |}) w
  = Delete ti w.
Proof. reflexivity. Qed.

(** ** LoadByID *)

(** C4. When the select of [LoadByID] returns no row, the entity comes back
    as it was passed, mapped fields and record state alike, and the error
    is [nil]. *)
Theorem LoadByID_no_row (ti : Entity) (id : Z) (w : World)
  (c : SQLConnector) (s1 s2 : DB) :
  getTableRecordConnection ti = Some c ->
  conn_Preparex c (selectByID ti) (store w) = (None, s1) ->
  conn_StmtQueryx c (selectByID ti) [VInt id] s1 = (Ok [], s2) ->
  LoadByID ti id w =
    Some ((ti, None),
          {| store := s2;
             log := (log w ++ [CallPreparex (selectByID ti)]
                       ++ [CallStmtQueryx (selectByID ti) [VInt id]]
                       ++ [CallRowsClose] ++ [CallStmtClose (selectByID ti)])%list |}).
Proof.
  intros Hc Hp Hq. unfold LoadByID, db_Preparex, stmt_Queryx, rows_Close, stmt_Close.
  rewrite Hc. run. rewrite Hp. simpl. rewrite Hq. simpl.
  repeat rewrite <- app_assoc. reflexivity.
Qed.

(** The outcomes of [LoadByID] on an attached connector, by what the
    connector answers. *)
Lemma LoadByID_cases (ti : Entity) (id : Z) (w : World) (c : SQLConnector) :
  getTableRecordConnection ti = Some c ->
  let q := selectByID ti in
  let (p, s1) := conn_Preparex c q (store w) in
  match p with
  | Some err =>
      LoadByID ti id w =
        Some ((ti, Some err),
              {| store := s1; log := (log w ++ [CallPreparex q])%list |})
  | None =>
      let (r, s2) := conn_StmtQueryx c q [VInt id] s1 in
      match r with
      | Fail err =>
          LoadByID ti id w =
            Some ((ti, Some err),
                  {| store := s2;
                     log := (log w ++ [CallPreparex q; CallStmtQueryx q [VInt id];
                                       CallStmtClose q])%list |})
      | Ok rows =>
          LoadByID ti id w =
            Some (match rows with
                  | r :: _ => LoadFromRow r ti
                  | [] => (ti, None)
                  end,
                  {| store := s2;
                     log := (log w ++ [CallPreparex q; CallStmtQueryx q [VInt id];
                                       CallRowsClose; CallStmtClose q])%list |})
      end
  end.
Proof.
  intros Hc q. unfold LoadByID, db_Preparex, stmt_Queryx, rows_Close, stmt_Close.
  rewrite Hc. run. fold q.
  destruct (conn_Preparex c q (store w)) as [[err|] s1]; simpl; [reflexivity|].
  destruct (conn_StmtQueryx c q [VInt id] s1) as [[rows|err] s2]; simpl;
    repeat rewrite <- app_assoc; reflexivity.
Qed.

(** A row that fails to load leaves the record of the entity as it was:
    the scan writes mapped fields only. *)
Lemma LoadFromRow_error (r : Row) (ti ti' : Entity) (err : error) :
  LoadFromRow r ti = (ti', Some err) ->
  StructScan r ti = (ti', Some err) /\ tr ti' = tr ti.
Proof.
  unfold LoadFromRow. destruct (StructScan r ti) as [t [e|]] eqn:E;
    intros H; inversion H; subst.
  split; [reflexivity|]. now destruct (StructScan_frame _ _ _ _ E) as (_ & _ & _ & Ht).
Qed.

(** A row that loads marks the entity persisted. *)
Lemma LoadFromRow_ok (r : Row) (ti ti' : Entity) :
  LoadFromRow r ti = (ti', None) ->
  exists t, StructScan r ti = (t, None)
            /\ ti' = with_tr t (SetIsNew false (tr ti)).
Proof.
  unfold LoadFromRow. destruct (StructScan r ti) as [t [e|]] eqn:E;
    intros H; inversion H; subst.
  exists t. split; [reflexivity|].
  destruct (StructScan_frame _ _ _ _ E) as (_ & _ & _ & Ht).
  unfold GetTableRecord. rewrite Ht. reflexivity.
Qed.

(** [LoadByID] on an attached connector always returns. *)
Lemma LoadByID_returns (ti : Entity) (id : Z) (w : World) (c : SQLConnector) :
  getTableRecordConnection ti = Some c ->
  exists out w', LoadByID ti id w = Some (out, w').
Proof.
  intros Hc. pose proof (LoadByID_cases ti id w c Hc) as H. simpl in H.
  destruct (conn_Preparex c (selectByID ti) (store w)) as [[err|] s1];
    [eauto|].
  destruct (conn_StmtQueryx c (selectByID ti) [VInt id] s1) as [[rows|err] s2]; eauto.
Qed.

(** A failed [LoadByID] leaves the record of the entity as it was. *)
Lemma LoadByID_error (ti ti' : Entity) (id : Z) (w w' : World) (err : error) :
  LoadByID ti id w = Some ((ti', Some err), w') -> tr ti' = tr ti.
Proof.
  destruct (getTableRecordConnection ti) as [c|] eqn:Hc.
  - pose proof (LoadByID_cases ti id w c Hc) as H. simpl in H.
    destruct (conn_Preparex c (selectByID ti) (store w)) as [[e|] s1].
    + rewrite H. intros E. now inversion E.
    + destruct (conn_StmtQueryx c (selectByID ti) [VInt id] s1) as [[rows|e] s2];
        rewrite H; intros E; inversion E as [[E1 E2]]; [|reflexivity].
      destruct rows as [|r rows]; [discriminate|].
      now apply LoadFromRow_error in E1.
  - unfold LoadByID, db_Preparex. rewrite Hc. discriminate.
Qed.

(** The calls of [LoadByID] extend the log; a successful one prepares the
    select, queries it with the key, and closes rows and statement. *)
Lemma LoadByID_log (ti ti' : Entity) (id : Z) (w w' : World) (e : option error) :
  LoadByID ti id w = Some ((ti', e), w') ->
  exists l, log w' = (log w ++ CallPreparex (selectByID ti) :: l)%list
            /\ (e = None ->
                l = [CallStmtQueryx (selectByID ti) [VInt id];
                     CallRowsClose; CallStmtClose (selectByID ti)]).
Proof.
  destruct (getTableRecordConnection ti) as [c|] eqn:Hc.
  - pose proof (LoadByID_cases ti id w c Hc) as H. simpl in H.
    destruct (conn_Preparex c (selectByID ti) (store w)) as [[err|] s1].
    + rewrite H. intros E. inversion E; subst. simpl.
      exists []. split; [reflexivity|discriminate].
    + destruct (conn_StmtQueryx c (selectByID ti) [VInt id] s1) as [[rows|err] s2];
        rewrite H; intros E; inversion E; subst; simpl;
        eexists; split; try reflexivity; try discriminate.
  - unfold LoadByID, db_Preparex. rewrite Hc. discriminate.
Qed.

(** [LoadByID] when the select returns at least one row: the first row is
    loaded, the others are not looked at. *)
Lemma LoadByID_row (ti : Entity) (id : Z) (w : World) (c : SQLConnector)
  (s1 s2 : DB) (r : Row) (rest : Rows) :
  getTableRecordConnection ti = Some c ->
  conn_Preparex c (selectByID ti) (store w) = (None, s1) ->
  conn_StmtQueryx c (selectByID ti) [VInt id] s1 = (Ok (r :: rest), s2) ->
  LoadByID ti id w =
    Some (LoadFromRow r ti,
          {| store := s2;
             log := (log w ++ [CallPreparex (selectByID ti);
                               CallStmtQueryx (selectByID ti) [VInt id];
                               CallRowsClose; CallStmtClose (selectByID ti)])%list |}).
Proof.
  intros Hc Hp Hq. pose proof (LoadByID_cases ti id w c Hc) as H. simpl in H.
  rewrite Hp, Hq in H. exact H.
Qed.

(** ** Save *)

Lemma executeSaveUpdateQuery_ok (t : TableRecord DB) (c : SQLConnector)
  (query : string) (params : list value) (w : World)
  (result : SqlResult) (id : Z) (s1 : DB) :
  db t = Some c ->
  conn_Exec c query params (store w) = (Ok result, s1) ->
  LastInsertId result = (id, None) ->
  executeSaveUpdateQuery t query params w =
    Some ((id, None),
          {| store := s1; log := (log w ++ [CallExec query params])%list |}).
Proof.
  intros Hc He Hl. unfold executeSaveUpdateQuery, db_Exec. rewrite Hc. run.
  rewrite He. simpl. rewrite Hl. reflexivity.
Qed.

(** On an attached connector [executeSaveUpdateQuery] always returns, after
    exactly one [Exec]. *)
Lemma executeSaveUpdateQuery_returns (t : TableRecord DB) (c : SQLConnector)
  (query : string) (params : list value) (w : World) :
  db t = Some c ->
  exists x s1,
    executeSaveUpdateQuery t query params w =
      Some (x, {| store := s1; log := (log w ++ [CallExec query params])%list |}).
Proof.
  intros Hc. unfold executeSaveUpdateQuery, db_Exec. rewrite Hc. run.
  destruct (conn_Exec c query params (store w)) as [[result|err] s1]; simpl; eauto.
  destruct (LastInsertId result) as [lastID [err|]]; eauto.
Qed.

(** [Save] on a new, writable entity, when insert and reload succeed. *)
Lemma Save_new_ok (ti ti1 : Entity) (c : SQLConnector)
  (w w2 : World) (result : SqlResult) (id : Z) (s1 : DB) :
  isNew (GetTableRecord ti) = true ->
  isReadOnly (GetTableRecord ti) = false ->
  db (GetTableRecord ti) = Some c ->
  conn_Exec c (genSaveQuery ti) (getFieldsValueNoPrimary ti) (store w)
    = (Ok result, s1) ->
  LastInsertId result = (id, None) ->
  LoadByID ti id
    {| store := s1;
       log := (log w ++ [CallExec (genSaveQuery ti) (getFieldsValueNoPrimary ti)])%list |}
    = Some ((ti1, None), w2) ->
  Save ti w = Some ((with_tr ti1 (SetIsNew false (GetTableRecord ti1)), None), w2).
Proof.
  intros Hnew Hro Hc He Hid Hload.
  unfold Save. rewrite Hro, Hnew. unfold save, bind at 1 2.
  rewrite (executeSaveUpdateQuery_ok _ c _ _ w result id s1 Hc He Hid).
  unfold bind. rewrite Hload. reflexivity.
Qed.

(** C1. [Save] on a new, writable entity: the insert statement is executed
    with the values of the non-key fields, the key generated for it is
    taken from the result, [LoadByID] runs with that key on the storage the
    insert left, and the entity it returns is marked persisted.  The log
    shows the calls in that order. *)
Theorem Save_new_inserts_then_reloads (ti ti1 : Entity) (c : SQLConnector)
  (w w2 : World) (result : SqlResult) (id : Z) (s1 : DB) :
  isNew (GetTableRecord ti) = true ->
  isReadOnly (GetTableRecord ti) = false ->
  db (GetTableRecord ti) = Some c ->
  conn_Exec c (genSaveQuery ti) (getFieldsValueNoPrimary ti) (store w)
    = (Ok result, s1) ->
  LastInsertId result = (id, None) ->
  LoadByID ti id
    {| store := s1;
       log := (log w ++ [CallExec (genSaveQuery ti) (getFieldsValueNoPrimary ti)])%list |}
    = Some ((ti1, None), w2) ->
  Save ti w = Some ((with_tr ti1 (SetIsNew false (GetTableRecord ti1)), None), w2)
  /\ log w2 = (log w ++ [CallExec (genSaveQuery ti) (getFieldsValueNoPrimary ti);
                         CallPreparex (selectByID ti);
                         CallStmtQueryx (selectByID ti) [VInt id];
                         CallRowsClose;
                         CallStmtClose (selectByID ti)])%list
  /\ isNew (GetTableRecord (with_tr ti1 (SetIsNew false (GetTableRecord ti1)))) = false.
Proof.
  intros Hnew Hro Hc He Hid Hload. split; [|split]; [| |reflexivity].
  - now apply (Save_new_ok ti ti1 c w w2 result id s1).
  - destruct (LoadByID_log _ _ _ _ _ _ Hload) as [l [Hl Hok]].
    rewrite Hl, (Hok eq_refl). simpl. rewrite <- app_assoc. reflexivity.
Qed.

(** C10. [Save] on a new entity whose insert succeeds and whose reload fails
    returns the error of the reload; the entity is still marked new, while
    the insert has been executed on the storage. *)
Theorem Save_new_reload_fails (ti ti1 : Entity) (c : SQLConnector)
  (w w2 : World) (result : SqlResult) (id : Z) (s1 : DB) (err : error) :
  isNew (GetTableRecord ti) = true ->
  isReadOnly (GetTableRecord ti) = false ->
  db (GetTableRecord ti) = Some c ->
  conn_Exec c (genSaveQuery ti) (getFieldsValueNoPrimary ti) (store w)
    = (Ok result, s1) ->
  LastInsertId result = (id, None) ->
  LoadByID ti id
    {| store := s1;
       log := (log w ++ [CallExec (genSaveQuery ti) (getFieldsValueNoPrimary ti)])%list |}
    = Some ((ti1, Some err), w2) ->
  Save ti w = Some ((ti1, Some err), w2)
  /\ isNew (GetTableRecord ti1) = true
  /\ exists l,
       log w2 = (log w ++ CallExec (genSaveQuery ti) (getFieldsValueNoPrimary ti) :: l)%list.
Proof.
  intros Hnew Hro Hc He Hid Hload. split; [|split].
  - unfold Save. rewrite Hro, Hnew. unfold save, bind at 1 2.
    rewrite (executeSaveUpdateQuery_ok _ c _ _ w result id s1 Hc He Hid).
    unfold bind. rewrite Hload. reflexivity.
  - unfold GetTableRecord in *. now rewrite (LoadByID_error _ _ _ _ _ _ Hload).
  - destruct (LoadByID_log _ _ _ _ _ _ Hload) as [l [Hl _]].
    exists (CallPreparex (selectByID ti) :: l). rewrite Hl. simpl.
    rewrite <- app_assoc. reflexivity.
Qed.

(** Pointing a [nil] pointer at a zero value keeps the integer under
    the key column. *)
Lemma allocate_keeps_key pk cols : forall fs,
  keyOf pk (allocate cols fs) = keyOf pk fs.
Proof.
  induction cols as [|[n v] cols IH]; simpl; intros fs; [reflexivity|].
  rewrite IH. unfold keyOf.
  destruct (String.eqb_spec pk n) as [->|Hne].
  - rewrite lookup_update_same.
    destruct (lookup n fs) as [[z|s|[z|]|[s|]]|]; reflexivity.
  - now rewrite lookup_update_other.
Qed.

(** Scanning a row keyed by [id] keeps a key that is already [id], however
    far the scan gets. *)
Lemma scanColumns_keeps_key pk id cols : forall i fs,
  Forall (fun cv => fst cv = pk -> snd cv = VInt id) cols ->
  keyOf pk fs = id ->
  keyOf pk (fst (scanColumns i cols fs)) = id.
Proof.
  induction cols as [|[n v] cols IH]; simpl; intros i fs Hall Hid; [exact Hid|].
  apply Forall_cons_iff in Hall as [Hhd Htl]. simpl in Hhd.
  destruct (lookup n fs) as [f|] eqn:Hf; [|now apply IH].
  destruct (convertAssign f v) as [f' e] eqn:Hc.
  assert (Hk : keyOf pk (update_field n (fun _ => f') fs) = keyOf pk fs).
  { unfold keyOf. destruct (String.eqb_spec pk n) as [->|Hne].
    - unfold keyOf in Hid. rewrite Hf in Hid.
      rewrite lookup_update_same, Hf. simpl.
      rewrite (Hhd eq_refl) in Hc.
      destruct f as [z|s|p|p]; simpl in Hc; inversion Hc; simpl;
        first [reflexivity | symmetry; exact Hid].
    - now rewrite lookup_update_other. }
  rewrite Hid in Hk. destruct e as [msg|]; simpl; [exact Hk|].
  apply IH; [exact Htl|exact Hk].
Qed.

(** Loading a row keyed by the entity's own key keeps the key, whether the
    load succeeds or stops at a column. *)
Lemma LoadFromRow_keeps_key (r : Row) (ti ti' : Entity) (e : option error) :
  keyedRow (primaryKeyName ti) (GetPrimaryKeyValue ti) r ->
  LoadFromRow r ti = (ti', e) ->
  GetPrimaryKeyValue ti' = GetPrimaryKeyValue ti.
Proof.
  intros Hk H.
  assert (Hs : GetPrimaryKeyValue (fst (StructScan r ti)) = GetPrimaryKeyValue ti).
  { destruct (missingField r (fields ti)) as [n|] eqn:Hm.
    - unfold StructScan. rewrite Hm. reflexivity.
    - destruct (StructScan r ti) as [t e0] eqn:E.
      destruct (StructScan_frame _ _ _ _ E) as (_ & Hpk & _ & _).
      pose proof (StructScan_fields r ti Hm) as [Hf _]. rewrite E in Hf.
      simpl in *. unfold GetPrimaryKeyValue. rewrite Hpk, Hf.
      apply scanColumns_keeps_key; [exact Hk|apply allocate_keeps_key]. }
  unfold LoadFromRow in H. destruct (StructScan r ti) as [t [err|]];
    inversion H; subst; exact Hs.
Qed.

Lemma LoadByID_keeps_key (ti ti' : Entity) (c : SQLConnector) (w w' : World)
  (e : option error) :
  getTableRecordConnection ti = Some c ->
  selectsByKey c ti ->
  LoadByID ti (GetPrimaryKeyValue ti) w = Some ((ti', e), w') ->
  GetPrimaryKeyValue ti' = GetPrimaryKeyValue ti.
Proof.
  intros Hc Hsel. pose proof (LoadByID_cases ti (GetPrimaryKeyValue ti) w c Hc) as H.
  simpl in H.
  destruct (conn_Preparex c (selectByID ti) (store w)) as [[err|] s1].
  - rewrite H. intros E. now inversion E.
  - destruct (conn_StmtQueryx c (selectByID ti) [VInt (GetPrimaryKeyValue ti)] s1)
      as [[rows|err] s2] eqn:Hq; rewrite H; intros E; inversion E as [[E1 E2]];
      [|reflexivity].
    destruct rows as [|r rows]; [now inversion E1|].
    specialize (Hsel _ _ _ _ Hq). inversion Hsel as [|? ? Hr _]; subst.
    now apply (LoadFromRow_keeps_key r ti ti' e).
Qed.

(** C8. [Save] on a persisted entity returns, and whatever the non-key
    fields hold and whatever the outcome, the primary-key value of the
    entity after the call is the one before it.  The connector is assumed
    to answer a select by key with rows of that key. *)
Theorem Save_update_keeps_key (ti : Entity) (c : SQLConnector) (w : World) :
  isNew (GetTableRecord ti) = false ->
  db (GetTableRecord ti) = Some c ->
  selectsByKey c ti ->
  exists ti' e w',
    Save ti w = Some ((ti', e), w')
    /\ GetPrimaryKeyValue ti' = GetPrimaryKeyValue ti.
Proof.
  intros Hnew Hc Hsel. unfold Save.
  destruct (isReadOnly (GetTableRecord ti)); [do 3 eexists; split; reflexivity|].
  rewrite Hnew. unfold update, bind at 1 2.
  destruct (executeSaveUpdateQuery_returns (GetTableRecord ti) c (genUpdateQuery ti)
              (getFieldsValueNoPrimary ti ++ [VInt (GetPrimaryKeyValue ti)]) w Hc)
    as [[lastID e] [s1 ->]].
  destruct e as [err|]; [do 3 eexists; split; reflexivity|].
  unfold bind.
  match goal with |- context [LoadByID ti ?i ?w1] =>
    destruct (LoadByID_returns ti i w1 c Hc) as [[ti' e] [w' Hl]]
  end.
  rewrite Hl. pose proof (LoadByID_keeps_key _ _ _ _ _ _ Hc Hsel Hl) as Hk.
  destruct e; do 3 eexists; split; try reflexivity; exact Hk.
Qed.

(** ** Multi-row reads *)

(** A row that fails to load ends the loop with [nil] and an error,
    whatever was collected before. *)
Lemma loadRows_fails (ntm : NewTableModel) (rows : Rows) :
  Exists (scanFails ntm) rows ->
  forall acc, exists err, loadRows ntm rows acc = ([], Some err).
Proof.
  induction 1 as [r rows Hr|r rows _ IH]; intros acc; simpl; unfold LoadFromRow.
  - unfold scanFails in Hr.
    destruct (StructScan r (ntm tt)) as [t [err|]]; [eauto|contradiction].
  - destruct (StructScan r (ntm tt)) as [t [err|]]; [eauto|apply IH].
Qed.

(** The loop never returns a collection together with an error. *)
Lemma loadRows_error_nil (ntm : NewTableModel) (rows : Rows) :
  forall acc l err, loadRows ntm rows acc = (l, Some err) -> l = [].
Proof.
  induction rows as [|r rows IH]; simpl; intros acc l err H; [discriminate|].
  destruct (LoadFromRow r (ntm tt)) as [ti' [e|]]; [now inversion H|eauto].
Qed.

(** C9. [All] and [ExecQuery]: when the query itself succeeds and one of
    the rows it returns fails to scan into a fresh entity, the operation
    returns an error together with the [nil] collection. *)
Theorem multi_row_scan_failure (ntm : NewTableModel) (rows : Rows) :
  Exists (scanFails ntm) rows ->
  (forall (w : World) (c : SQLConnector) (s1 : DB),
      db (GetTableRecord (ntm tt)) = Some c ->
      conn_Queryx c (selectAll (ntm tt)) [] (store w) = (Ok rows, s1) ->
      exists err w', All ntm w = Some (([], Some err), w'))
  /\ (forall (ti : Entity) (w : World) (c : SQLConnector) (s1 s2 : DB),
         db (GetTableRecord ti) = Some c ->
         conn_Preparex c (BuildQuery (builder (GetTableRecord ti)) (GetTableName ti))
           (store w) = (None, s1) ->
         conn_StmtQueryx c (BuildQuery (builder (GetTableRecord ti)) (GetTableName ti))
           (Params (builder (GetTableRecord ti))) s1 = (Ok rows, s2) ->
         exists err w', ExecQuery ti ntm w = Some ((ti, ([], Some err)), w')).
Proof.
  intros Hbad. split.
  - intros w c s1 Hc Hq. unfold All, db_Queryx. rewrite Hc. run. rewrite Hq. simpl.
    destruct (loadRows_fails ntm rows Hbad []) as [err ->]. eauto.
  - intros ti w c s1 s2 Hc Hp Hq.
    unfold ExecQuery, PrepareStmt, db_Preparex, stmt_Queryx, rows_Close, stmt_Close.
    rewrite Hc. run. rewrite Hp. simpl. rewrite Hq. simpl.
    destruct (loadRows_fails ntm rows Hbad []) as [err ->]. simpl. eauto.
Qed.

(** ** Builder state across ExecQuery *)

(** When [ExecQuery] returns a result list, the builder of the entity has
    been reset. *)
Lemma ExecQuery_ok_resets (ti ti' : Entity) (ntm : NewTableModel) (w w' : World)
  (l : list Entity) :
  ExecQuery ti ntm w = Some ((ti', (l, None)), w') ->
  builder (GetTableRecord ti') = {| clauses := []; Params := [] |}.
Proof.
  unfold ExecQuery, PrepareStmt, db_Preparex, stmt_Queryx, rows_Close, stmt_Close.
  destruct (db (GetTableRecord ti)) as [c|]; run; [|discriminate].
  destruct (conn_Preparex c _ (store w)) as [[err|] s1]; simpl; [discriminate|].
  destruct (conn_StmtQueryx c _ _ s1) as [[rows|err] s2]; simpl; [|discriminate].
  destruct (loadRows ntm rows []) as [tiList [err|]]; simpl; [discriminate|].
  intros H. inversion H; subst. reflexivity.
Qed.

(** On every return with an error, [ExecQuery] hands the entity back as
    it was passed, builder included. *)
Lemma ExecQuery_error_keeps (ti ti' : Entity) (ntm : NewTableModel) (w w' : World)
  (l : list Entity) (err : error) :
  ExecQuery ti ntm w = Some ((ti', (l, Some err)), w') ->
  ti' = ti /\ l = [].
Proof.
  unfold ExecQuery, PrepareStmt, db_Preparex, stmt_Queryx, rows_Close, stmt_Close.
  destruct (db (GetTableRecord ti)) as [c|]; run; [|discriminate].
  destruct (conn_Preparex c _ (store w)) as [[e|] s1]; simpl;
    [intros H; inversion H; now subst|].
  destruct (conn_StmtQueryx c _ _ s1) as [[rows|e] s2]; simpl;
    [|intros H; inversion H; now subst].
  destruct (loadRows ntm rows []) as [tiList [e|]]; simpl;
    intros H; inversion H; now subst.
Qed.

(** ** Delete *)

(** An error of the statement's [Exec] is returned as it is. *)
Lemma Delete_exec_error (ti : Entity) (c : SQLConnector) (w : World)
  (s1 s2 : DB) (err : error) :
  getTableRecordConnection ti = Some c ->
  conn_Prepare c (genDeleteQuery ti) (store w) = (None, s1) ->
  conn_StmtExec c (genDeleteQuery ti) [VInt (GetPrimaryKeyValue ti)] s1
    = (Fail err, s2) ->
  exists w', Delete ti w = Some ((0, Some err), w').
Proof.
  intros Hc Hp He. unfold Delete, db_Prepare, stmt_Exec, stmt_Close.
  rewrite Hc. run. rewrite Hp. simpl. rewrite He. simpl. eauto.
Qed.

(** An error of [RowsAffected] is dropped: [Delete] returns [0] and
    [nil]. *)
Lemma Delete_RowsAffected_error (ti : Entity) (c : SQLConnector) (w : World)
  (s1 s2 : DB) (result : SqlResult) (n : Z) (err : error) :
  getTableRecordConnection ti = Some c ->
  conn_Prepare c (genDeleteQuery ti) (store w) = (None, s1) ->
  conn_StmtExec c (genDeleteQuery ti) [VInt (GetPrimaryKeyValue ti)] s1
    = (Ok result, s2) ->
  RowsAffected result = (n, Some err) ->
  exists w', Delete ti w = Some ((0, None), w').
Proof.
  intros Hc Hp He Hr. unfold Delete, db_Prepare, stmt_Exec, stmt_Close.
  rewrite Hc. run. rewrite Hp. simpl. rewrite He. simpl. rewrite Hr. simpl. eauto.
Qed.

(** ** Scanning a row that converts *)

Lemma distinct_NoDup ns : distinct ns = true <-> NoDup ns.
Proof.
  induction ns as [|n ns IH]; simpl.
  - split; [constructor|reflexivity].
  - rewrite andb_true_iff, negb_true_iff, IH. split.
    + intros [Hn Hd]. constructor; [now apply existsb_eqb_In|exact Hd].
    + intros H. inversion H as [|? ? Hn Hd]; subst. split; [|exact Hd].
      destruct (existsb (String.eqb n) ns) eqn:E; [|reflexivity].
      apply existsb_exists in E as [m [Hin Hm]].
      apply String.eqb_eq in Hm. now subst m.
Qed.

Lemma missingField_none cols fs :
  (forall n v, In (n, v) cols -> hasField n fs = true) ->
  missingField cols fs = None.
Proof.
  induction cols as [|[n v] cols IH]; simpl; intros H; [reflexivity|].
  rewrite (H n v) by now left. apply IH. intros m x Hin. apply (H m x). now right.
Qed.

Lemma allocIfNil_idem f : allocIfNil (allocIfNil f) = allocIfNil f.
Proof. destruct f as [z|s|[z|]|[s|]]; reflexivity. Qed.

(** The destination of a column of the row has its [nil] pointer pointed at
    a zero value; the other fields are as they were. *)
Lemma allocate_lookup cols : forall fs n,
  lookup n (allocate cols fs)
  = if existsb (String.eqb n) (map fst cols)
    then option_map allocIfNil (lookup n fs)
    else lookup n fs.
Proof.
  induction cols as [|[k v] cols IH]; simpl; intros fs n; [reflexivity|].
  rewrite IH. destruct (String.eqb_spec n k) as [->|Hne]; simpl.
  - rewrite lookup_update_same.
    destruct (existsb (String.eqb k) (map fst cols)); [|reflexivity].
    destruct (lookup k fs) as [f|]; simpl; [|reflexivity].
    now rewrite allocIfNil_idem.
  - now rewrite lookup_update_other.
Qed.

(** When the columns of the row are distinct and each converts into the
    field it names, the scan returns no error, every field a column names
    holds the converted value, and every other field is as it was. *)
Lemma scanColumns_ok cols : forall i fs,
  NoDup (map fst cols) ->
  (forall n v, In (n, v) cols ->
     exists f, lookup n fs = Some f /\ snd (convertAssign f v) = None) ->
  snd (scanColumns i cols fs) = None
  /\ (forall n v f, In (n, v) cols -> lookup n fs = Some f ->
        lookup n (fst (scanColumns i cols fs)) = Some (fst (convertAssign f v)))
  /\ (forall m, ~ In m (map fst cols) ->
        lookup m (fst (scanColumns i cols fs)) = lookup m fs).
Proof.
  induction cols as [|[k x] cols IH]; simpl; intros i fs Hd Hall.
  - split; [reflexivity|]. split; [intros n v f []|reflexivity].
  - inversion Hd as [|? ? Hk Hd']; subst.
    destruct (Hall k x (or_introl eq_refl)) as [f [Hf Hc]]. rewrite Hf.
    destruct (convertAssign f x) as [f' e] eqn:Ec. simpl in Hc. subst e.
    set (fs' := update_field k (fun _ => f') fs).
    assert (Hother : forall m, m <> k -> lookup m fs' = lookup m fs)
      by (intros m Hm; now apply lookup_update_other).
    destruct (IH (S i) fs' Hd') as (H1 & H2 & H3).
    { intros n v Hin. destruct (Hall n v (or_intror Hin)) as [g [Hg Hcg]].
      exists g. split; [|exact Hcg]. rewrite Hother; [exact Hg|].
      intros ->. apply Hk. now apply (in_map fst) in Hin. }
    split; [exact H1|]. split.
    + intros n v g [Heq|Hin] Hg.
      * injection Heq as -> ->. rewrite H3 by exact Hk.
        unfold fs'. rewrite lookup_update_same, Hf. simpl.
        rewrite Hf in Hg. injection Hg as <-. now rewrite Ec.
      * apply H2; [exact Hin|]. rewrite Hother; [exact Hg|].
        intros ->. apply Hk. now apply (in_map fst) in Hin.
    + intros m Hm. rewrite H3 by tauto. apply Hother. intros ->. tauto.
Qed.

(** A field written as a parameter and read back into the field it came
    from, prepared as a destination, is the field it was. *)
Lemma convert_back f : convertAssign (allocIfNil f) (toValue f) = (f, None).
Proof. destruct f as [z|s|[z|]|[s|]]; reflexivity. Qed.

Lemma combine_map_fields (l : list (string * field)) :
  combine (map fst l) (map (fun f => toValue (snd f)) l)
  = map (fun f => (fst f, toValue (snd f))) l.
Proof. induction l as [|[n f] l IH]; simpl; [reflexivity|now rewrite IH]. Qed.

Lemma existsb_eqb_true n ns : In n ns -> existsb (String.eqb n) ns = true.
Proof.
  intros H. apply existsb_exists. exists n. split; [exact H|apply String.eqb_refl].
Qed.

(** The row a storage holds for the non-key fields [fs0], keyed by [id],
    scanned into fields that agree with [fs0] outside the key: the scan
    returns no error, the key is [id], and every other field is back to
    its value in [fs0]. *)
Lemma scan_stored pk id (fs0 fs : list (string * field)) :
  let row := (pk, VInt id)
               :: map (fun f => (fst f, toValue (snd f)))
                    (filter (fun f => negb (String.eqb (fst f) pk)) fs0) in
  distinct (map fst fs0) = true ->
  map fst fs = map fst fs0 ->
  (forall n, n <> pk -> lookup n fs = lookup n fs0) ->
  (exists k, lookup pk fs = Some k
             /\ match k with FInt64 _ | FPtrInt64 _ => True | _ => False end) ->
  missingField row fs = None
  /\ snd (scanColumns 0 row (allocate row fs)) = None
  /\ keyOf pk (fst (scanColumns 0 row (allocate row fs))) = id
  /\ (exists k, lookup pk (fst (scanColumns 0 row (allocate row fs))) = Some k
                /\ match k with FInt64 _ | FPtrInt64 _ => True | _ => False end)
  /\ (forall n, n <> pk ->
        lookup n (fst (scanColumns 0 row (allocate row fs))) = lookup n fs0).
Proof.
  intros row Hd Hn Hsame (k & Hk & Hint).
  set (np := filter (fun f => negb (String.eqb (fst f) pk)) fs0) in *.
  assert (Hnp : forall n f, In (n, f) np -> In (n, f) fs0 /\ n <> pk).
  { intros n f Hin. apply filter_In in Hin as [Hin Hp]. split; [exact Hin|].
    apply negb_true_iff in Hp. now apply String.eqb_neq in Hp. }
  assert (Hrow : forall n v, In (n, v) row ->
            (n = pk /\ v = VInt id)
            \/ exists f, In (n, f) np /\ v = toValue f).
  { intros n v [Heq|Hin]; [left; now inversion Heq|]. right.
    apply in_map_iff in Hin as [[m f] [Heq Hin]]. simpl in Heq.
    injection Heq as <- <-. now exists f. }
  assert (Hnames : forall n, In n (map fst row) -> existsb (String.eqb n) (map fst row) = true)
    by (intros n; apply existsb_eqb_true).
  assert (Hdrow : NoDup (map fst row)).
  { simpl. constructor.
    - rewrite map_map. simpl. intros Hin. apply in_map_iff in Hin as [[m f] [Heq Hin]].
      simpl in Heq. subst m. now destruct (Hnp _ _ Hin).
    - rewrite map_map. simpl. apply distinct_NoDup in Hd.
      unfold np. clear -Hd. induction fs0 as [|[m f] fs0 IH]; simpl; [constructor|].
      inversion Hd as [|? ? Hm Hd']; subst.
      destruct (negb (String.eqb m pk)); simpl; [|now apply IH].
      constructor; [|now apply IH]. intros Hin. apply Hm.
      apply in_map_iff in Hin as [[m' f'] [Heq Hin]]. simpl in Heq. subst m'.
      apply filter_In in Hin as [Hin _]. now apply (in_map fst) in Hin. }
  assert (Halloc : forall n v, In (n, v) row ->
            lookup n (allocate row fs) = option_map allocIfNil (lookup n fs)).
  { intros n v Hin. rewrite allocate_lookup, Hnames; [reflexivity|].
    now apply (in_map fst) in Hin. }
  assert (Hconv : forall n v, In (n, v) row ->
            exists f, lookup n (allocate row fs) = Some f
                      /\ snd (convertAssign f v) = None).
  { intros n v Hin. rewrite (Halloc n v Hin).
    destruct (Hrow n v Hin) as [[-> ->]|(f & Hf & ->)].
    - rewrite Hk. simpl. eexists. split; [reflexivity|].
      destruct k as [z|s|[z|]|[s|]]; simpl in *; tauto.
    - destruct (Hnp _ _ Hf) as [Hin0 Hne].
      rewrite (Hsame n Hne), (distinct_lookup _ _ _ Hd Hin0). simpl.
      eexists. split; [reflexivity|]. now rewrite convert_back. }
  destruct (scanColumns_ok row 0 (allocate row fs) Hdrow Hconv) as (H1 & H2 & H3).
  assert (Hpk : lookup pk (fst (scanColumns 0 row (allocate row fs)))
                = Some (fst (convertAssign (allocIfNil k) (VInt id)))).
  { apply H2; [now left|]. rewrite (Halloc pk (VInt id)) by now left.
    now rewrite Hk. }
  split; [|split; [exact H1|split; [|split]]].
  - apply missingField_none. intros n v Hin. apply hasField_In.
    destruct (Hrow n v Hin) as [[-> _]|(f & Hf & _)].
    + apply hasField_In. unfold hasField. now rewrite Hk.
    + rewrite Hn. destruct (Hnp _ _ Hf) as [Hin0 _]. now apply (in_map fst) in Hin0.
  - unfold keyOf. rewrite Hpk.
    destruct k as [z|s|[z|]|[s|]]; simpl in *; tauto.
  - eexists. split; [exact Hpk|].
    destruct k as [z|s|[z|]|[s|]]; simpl in *; tauto.
  - intros n Hne. destruct (lookup n fs0) as [f|] eqn:Hf0.
    + assert (Hin0 : In (n, f) fs0).
      { clear -Hf0. induction fs0 as [|[m g] fs0 IH]; simpl in *; [discriminate|].
        destruct (String.eqb_spec m n) as [->|]; [left; congruence|right; auto]. }
      assert (Hinr : In (n, toValue f) row).
      { right. apply in_map_iff. exists (n, f). split; [reflexivity|].
        apply filter_In. split; [exact Hin0|]. simpl.
        apply negb_true_iff. now apply String.eqb_neq. }
      rewrite (H2 n (toValue f) (allocIfNil f) Hinr).
      * now rewrite convert_back.
      * rewrite (Halloc _ _ Hinr), (Hsame n Hne), Hf0. reflexivity.
    + rewrite H3.
      * rewrite allocate_lookup.
        destruct (existsb (String.eqb n) (map fst row));
          rewrite (Hsame n Hne), Hf0; reflexivity.
      * intros Hin. apply in_map_iff in Hin as [[m v] [Heq Hin]]. simpl in Heq.
        subst m. destruct (Hrow n v Hin) as [[-> _]|(f & Hf & _)]; [tauto|].
        destruct (Hnp _ _ Hf) as [Hin0 _].
        rewrite (distinct_lookup _ _ _ Hd Hin0) in Hf0. discriminate.
Qed.

(** ** Round trip *)

(** Loading the row a storage holds for [ti0], keyed by [id], into an
    entity that agrees with [ti0] outside the key. *)
Lemma LoadFromRow_stored (ti0 ti : Entity) (id : Z) :
  let row := (primaryKeyName ti0, VInt id)
               :: map (fun f => (fst f, toValue (snd f))) (noPrimary ti0) in
  distinct (map fst (fields ti0)) = true ->
  primaryKeyName ti = primaryKeyName ti0 ->
  map fst (fields ti) = map fst (fields ti0) ->
  (forall n, n <> primaryKeyName ti0 -> lookup n (fields ti) = lookup n (fields ti0)) ->
  intKey ti = true ->
  exists ti',
    LoadFromRow row ti = (ti', None)
    /\ GetPrimaryKeyValue ti' = id
    /\ intKey ti' = true
    /\ primaryKeyName ti' = primaryKeyName ti0
    /\ tableName ti' = tableName ti
    /\ map fst (fields ti') = map fst (fields ti0)
    /\ tr ti' = SetIsNew false (tr ti)
    /\ (forall n, n <> primaryKeyName ti0 ->
          lookup n (fields ti') = lookup n (fields ti0)).
Proof.
  intros row Hd Hpk Hn Hsame Hint.
  assert (Hk : exists k, lookup (primaryKeyName ti0) (fields ti) = Some k
                         /\ match k with FInt64 _ | FPtrInt64 _ => True | _ => False end).
  { unfold intKey in Hint. rewrite Hpk in Hint.
    destruct (lookup (primaryKeyName ti0) (fields ti)) as [[z|s|p|p]|];
      try discriminate; eexists; split; try reflexivity; exact I. }
  destruct (scan_stored (primaryKeyName ti0) id (fields ti0) (fields ti) Hd Hn Hsame Hk)
    as (Hm & He & Hkey & (k' & Hk' & Hint') & Hrest).
  subst row. unfold noPrimary in *. cbv zeta in Hm, He, Hkey, Hk', Hrest.
  match type of Hm with missingField ?r _ = _ => set (row := r) in * end.
  destruct (StructScan row ti) as [t e] eqn:E.
  destruct (StructScan_frame _ _ _ _ E) as (Ht & Hp & Hnames & Htr).
  destruct (StructScan_fields row ti Hm) as [Hf Hs]. rewrite E in Hf, Hs.
  cbn [fst snd] in Hf, Hs.
  rewrite He in Hs. subst e.
  exists (with_tr t (SetIsNew false (tr ti))).
  split.
  { unfold LoadFromRow. rewrite E. unfold GetTableRecord. rewrite Htr. reflexivity. }
  unfold GetPrimaryKeyValue, intKey. simpl. rewrite Hp, Hpk, Hf.
  split; [exact Hkey|]. split.
  { rewrite Hk'. destruct k' as [z|s|p|p]; tauto. }
  repeat split; try congruence. exact Hrest.
Qed.

(** C7. A new, writable entity with distinct columns and an integer key is
    saved on a connector that keeps what the insert writes.  Then [Save]
    succeeds, [LoadByID] with the key the entity then has succeeds, and
    every mapped field other than the key, which the insert generates, is
    equal to the value it was set to before [Save]. *)
Theorem Save_then_LoadByID_round_trip (ti : Entity) (c : SQLConnector) (w : World) :
  isNew (GetTableRecord ti) = true ->
  isReadOnly (GetTableRecord ti) = false ->
  db (GetTableRecord ti) = Some c ->
  distinct (map fst (fields ti)) = true ->
  intKey ti = true ->
  keepsRows c ti (store w) ->
  exists ti1 w1 ti2 w2,
    Save ti w = Some ((ti1, None), w1)
    /\ LoadByID ti1 (GetPrimaryKeyValue ti1) w1 = Some ((ti2, None), w2)
    /\ forall n, n <> primaryKeyName ti ->
                 lookup n (fields ti2) = lookup n (fields ti).
Proof.
  intros Hnew Hro Hc Hd Hint (holds & Hins & Hprep & Hsel).
  destruct (Hins (getFieldsValueNoPrimary ti)) as (result & id & s1 & He & Hid & Hh1).
  { unfold getFieldsValueNoPrimary. now rewrite length_map. }
  unfold getFieldsValueNoPrimary in Hh1. rewrite combine_map_fields in Hh1.
  set (R := map (fun f => (fst f, toValue (snd f))) (noPrimary ti)) in *.
  (* the reload inside Save *)
  destruct (Hprep _ _ _ Hh1) as (s2 & Hp1 & Hh2).
  destruct (Hsel _ _ _ Hh2) as (rest & s3 & Hq1 & Hh3).
  destruct (LoadFromRow_stored ti ti id Hd eq_refl eq_refl (fun _ _ => eq_refl) Hint)
    as (t1 & HL1 & Hk1 & Hint1 & Hpk1 & Htab1 & Hn1 & Htr1 & Hf1).
  fold R in HL1.
  set (w0 := {| store := s1;
                log := (log w ++ [CallExec (genSaveQuery ti)
                                    (getFieldsValueNoPrimary ti)])%list |}).
  pose proof (LoadByID_row ti id w0 c s2 s3 _ rest Hc Hp1 Hq1) as HB1.
  rewrite HL1 in HB1.
  pose proof (Save_new_ok ti t1 c w _ result id s1 Hnew Hro Hc He Hid HB1) as HS.
  set (ti1 := with_tr t1 (SetIsNew false (GetTableRecord t1))) in *.
  (* the load that follows *)
  assert (Hsame : selectByID ti1 = selectByID ti).
  { unfold selectByID, AllField, GetFieldMapper, GetTableName, GetPrimaryKeyName.
    simpl. now rewrite Hn1, Htab1, Hpk1. }
  assert (Hc1 : getTableRecordConnection ti1 = Some c).
  { unfold getTableRecordConnection, GetTableRecord in *. subst ti1. simpl.
    rewrite Htr1. exact Hc. }
  assert (Hkey1 : GetPrimaryKeyValue ti1 = id) by exact Hk1.
  destruct (Hprep _ _ _ Hh3) as (s4 & Hp2 & Hh4).
  destruct (Hsel _ _ _ Hh4) as (rest' & s5 & Hq2 & _).
  destruct (LoadFromRow_stored ti ti1 id Hd Hpk1 Hn1 Hf1 Hint1)
    as (t2 & HL2 & _ & _ & _ & _ & _ & _ & Hf2).
  fold R in HL2.
  eexists ti1, _, t2, _. split; [exact HS|]. split; [|exact Hf2].
  rewrite Hkey1.
  rewrite (LoadByID_row ti1 id _ c s4 s5 ((primaryKeyName ti, VInt id) :: R) rest').
  - rewrite HL2. reflexivity.
  - exact Hc1.
  - rewrite Hsame. exact Hp2.
  - rewrite Hsame. exact Hq2.
Qed.

End Properties.

(** * The reference connector, and the properties at concrete entities *)

(** The in-memory table answers a select by key with rows of that key. *)
Lemma Mem_selectsByKey (pk : string) (cols : list string) (ti : Entity Mem.Store) :
  existsb (String.eqb pk) cols = false ->
  primaryKeyName ti = pk ->
  selectsByKey (Mem.conn pk cols) ti.
Proof.
  intros Hpk Hname id s rows s' H. simpl in H. unfold Mem.StmtQueryx in H. simpl in H.
  injection H as <- _. rewrite Hname. apply Forall_forall. intros r Hr.
  apply in_map_iff in Hr as [[k vals] [<- Hin]].
  apply filter_In in Hin as [_ Hk]. unfold Mem.hasKey in Hk. simpl in Hk.
  apply Z.eqb_eq in Hk. subst k. unfold Mem.rowOf, keyedRow. simpl.
  constructor; [reflexivity|].
  apply Forall_forall. intros [n v] Hin Hn. simpl in Hn. subst n.
  apply in_combine_l in Hin. exfalso. now apply (existsb_eqb_In _ _ Hpk).
Qed.

(** ** Read-only *)

Lemma Save_read_only_witness :
  let ro := Mem.user Mem.users true true 0 (VStr "Mario") (VStr "Rossi") (VStr "M") in
  isReadOnly (GetTableRecord ro) = true
  /\ Save ro Mem.two = Some ((ro, Some "Read-only model"), Mem.two).
Proof.
  split; [reflexivity|]. apply Save_read_only. reflexivity.
Defined.

(** C5. [Delete] has no read-only check: on a read-only entity it sends the
    delete statement, the row is removed from the storage, and one affected
    row is reported with a [nil] error. *)
Theorem Delete_read_only_removes_row :
  let ro := Mem.user Mem.users false true 1 (VStr "Mario") (VStr "Rossi") (VStr "M") in
  isReadOnly (GetTableRecord ro) = true
  /\ Delete ro Mem.two =
       Some ((1, None),
             {| store := {| Mem.next_id := 3;
                            Mem.table := [(2, [VStr "Anna"; VStr "Bianchi"; VStr "F"])] |};
                log := [CallPrepare "DELETE FROM users WHERE id = ?";
                        CallStmtExec "DELETE FROM users WHERE id = ?" [VInt 1];
                        CallStmtClose "DELETE FROM users WHERE id = ?"] |}).
Proof. split; reflexivity. Qed.

(** ** Errors of the connector *)

(** C3. [Delete] on a connector whose result cannot report the affected
    rows: the statement runs, [RowsAffected] returns an error, and [Delete]
    returns [0] with a [nil] error in its place. *)
Theorem Delete_drops_RowsAffected_error :
  let c := Mem.failRowsAffected "RowsAffected not supported" Mem.users in
  let u := Mem.user c false false 1 (VStr "Mario") (VStr "Rossi") (VStr "M") in
  (exists result s,
      conn_StmtExec c (genDeleteQuery u) [VInt (GetPrimaryKeyValue u)] (store Mem.two)
        = (Ok result, s)
      /\ RowsAffected result = (0, Some "RowsAffected not supported"))
  /\ exists w', Delete u Mem.two = Some ((0, None), w').
Proof.
  split.
  - eexists _, _. split; reflexivity.
  - eexists. reflexivity.
Qed.

(** ** Builder state *)

(** C6. [ExecQuery] on an entity with a staged predicate, on a connector
    that fails to prepare: the error is returned and the entity comes back
    with the predicate and its parameter still staged. *)
Theorem ExecQuery_error_keeps_staged_query :
  let c := Mem.failPreparex "connection refused" Mem.users in
  exists ti' w',
    ExecQuery (Mem.staged c) (Mem.NewUser c) Mem.two
      = Some ((ti', ([], Some "connection refused")), w')
    /\ builder (GetTableRecord ti')
       = {| clauses := ["gender = ?"]; Params := [VStr "M"] |}.
Proof. eexists _, _. split; reflexivity. Qed.

(** ** LoadByID *)

Lemma LoadByID_no_row_witness :
  let u := Mem.user Mem.users false false 7 (VStr "Mario") (VStr "Rossi") (VStr "M") in
  exists w', LoadByID u 7 Mem.two = Some ((u, None), w').
Proof.
  intros u. eexists.
  apply (LoadByID_no_row u 7 Mem.two Mem.users (store Mem.two) (store Mem.two));
    reflexivity.
Defined.

(** ** Save *)

Lemma Save_new_inserts_then_reloads_witness :
  exists ti' w',
    Save Mem.mario Mem.empty = Some ((ti', None), w')
    /\ log w' =
         [CallExec "INSERT INTO users (name,lastname,gender) VALUES (?,?,?)"
            [VStr "Mario"; VStr "Rossi"; VStr "M"];
          CallPreparex "SELECT id,name,lastname,gender FROM users WHERE id = ?";
          CallStmtQueryx "SELECT id,name,lastname,gender FROM users WHERE id = ?"
            [VInt 1];
          CallRowsClose;
          CallStmtClose "SELECT id,name,lastname,gender FROM users WHERE id = ?"]
    /\ isNew (GetTableRecord ti') = false.
Proof.
  eexists _, _.
  eapply (Save_new_inserts_then_reloads Mem.mario _ Mem.users Mem.empty _
            {| LastInsertId := (1, None); RowsAffected := (1, None) |} 1
            {| Mem.next_id := 2;
               Mem.table := [(1, [VStr "Mario"; VStr "Rossi"; VStr "M"])] |});
    cbv; reflexivity.
Defined.

Lemma Save_new_reload_fails_witness :
  let c := Mem.failPreparex "connection lost" Mem.users in
  let u := Mem.user c true false 0 (VStr "Mario") (VStr "Rossi") (VStr "M") in
  exists ti' w',
    Save u Mem.empty = Some ((ti', Some "connection lost"), w')
    /\ isNew (GetTableRecord ti') = true
    /\ exists l,
         log w' = (log Mem.empty
                     ++ CallExec (genSaveQuery u) (getFieldsValueNoPrimary u) :: l)%list.
Proof.
  intros c u. eexists _, _.
  eapply (Save_new_reload_fails u _ c Mem.empty _
            {| LastInsertId := (1, None); RowsAffected := (1, None) |} 1
            {| Mem.next_id := 2;
               Mem.table := [(1, [VStr "Mario"; VStr "Rossi"; VStr "M"])] |});
    cbv; reflexivity.
Defined.

Lemma Save_update_keeps_key_witness :
  let u := Mem.user Mem.users false false 1 (VStr "Marco") (VStr "Rossi") (VStr "M") in
  exists ti' e w',
    Save u Mem.two = Some ((ti', e), w')
    /\ GetPrimaryKeyValue ti' = 1.
Proof.
  intros u.
  apply (Save_update_keeps_key u Mem.users Mem.two).
  - reflexivity.
  - reflexivity.
  - apply Mem_selectsByKey; reflexivity.
Defined.

(** ** Multi-row reads *)

Lemma multi_row_scan_failure_witness :
  let c := Mem.failLastRow Mem.nullKey Mem.users in
  (exists err w', All (Mem.NewUser c) Mem.two = Some (([], Some err), w'))
  /\ (exists err w',
         ExecQuery (Mem.staged c) (Mem.NewUser c) Mem.two
           = Some ((Mem.staged c, ([], Some err)), w')).
Proof.
  intros c.
  destruct (multi_row_scan_failure (Mem.NewUser c)
              [Mem.rowOf "id" ["name"; "lastname"; "gender"]
                 (1, [VStr "Mario"; VStr "Rossi"; VStr "M"]);
               Mem.nullKey]) as [HA HE].
  - apply Exists_cons_tl, Exists_cons_hd. exact I.
  - split.
    + apply (HA Mem.two c (store Mem.two)); reflexivity.
    + apply (HE (Mem.staged c) Mem.two c (store Mem.two) (store Mem.two)); reflexivity.
Defined.

(** ** Round trip *)

(** The in-memory table keeps what the insert writes, from any storage
    whose next key is not in use. *)
Lemma Mem_keepsRows (pk : string) (cols : list string) (ti : Entity Mem.Store)
  (s0 : Mem.Store) :
  primaryKeyName ti = pk ->
  map fst (noPrimary ti) = cols ->
  String.prefix "INSERT" (genSaveQuery ti) = true ->
  filter (Mem.hasKey (Mem.next_id s0)) (Mem.table s0) = [] ->
  keepsRows (Mem.conn pk cols) ti s0.
Proof.
  intros Hpk Hcols Hins Hfresh.
  exists (fun s id r =>
            exists vals rest,
              filter (Mem.hasKey id) (Mem.table s) = (id, vals) :: rest
              /\ r = combine cols vals).
  split; [|split].
  - intros params _. simpl. unfold Mem.Exec. rewrite Hins.
    eexists _, _, _. split; [reflexivity|]. split; [reflexivity|]. simpl.
    exists params, []. rewrite filter_app, Hfresh. simpl.
    unfold Mem.hasKey at 1. simpl. rewrite Z.eqb_refl. rewrite Hcols. now split.
  - intros s id r H. exists s. split; [reflexivity|exact H].
  - intros s id r (vals & rest & Hf & ->). simpl. unfold Mem.StmtQueryx. simpl.
    rewrite Hf. simpl. unfold Mem.rowOf at 1. simpl. rewrite Hpk.
    eexists _, s. split; [reflexivity|]. now exists vals, rest.
Qed.

Lemma Save_then_LoadByID_round_trip_witness :
  exists ti1 w1 ti2 w2,
    Save Mem.mario Mem.empty = Some ((ti1, None), w1)
    /\ LoadByID ti1 (GetPrimaryKeyValue ti1) w1 = Some ((ti2, None), w2)
    /\ forall n, n <> "id" -> lookup n (fields ti2) = lookup n (fields Mem.mario).
Proof.
  apply (Save_then_LoadByID_round_trip Mem.mario Mem.users Mem.empty);
    try reflexivity.
  apply Mem_keepsRows; reflexivity.
Defined.

(** * Further properties of the lifecycle *)

Section Lifecycle_properties.

Context {DB : Type}.

Local Abbreviation SQLConnector := (SQLConnector DB).
Local Abbreviation Entity := (Entity DB).
Local Abbreviation NewTableModel := (NewTableModel DB).
Local Abbreviation World := (World DB).

(** ** What the operations leave alone *)

Lemma keepsIdentity_refl (ti : Entity) : keepsIdentity ti ti.
Proof. repeat split. Qed.

Lemma keepsIdentity_trans (a b c : Entity) :
  keepsIdentity a b -> keepsIdentity b c -> keepsIdentity a c.
Proof.
  unfold keepsIdentity. intros (A1 & A2 & A3 & A4 & A5 & A6) (B1 & B2 & B3 & B4 & B5 & B6).
  repeat split; congruence.
Qed.

Lemma LoadFromRow_keepsIdentity (r : Row) (ti ti' : Entity) (e : option error) :
  LoadFromRow r ti = (ti', e) -> keepsIdentity ti ti'.
Proof.
  unfold LoadFromRow. destruct (StructScan r ti) as [t e0] eqn:E.
  destruct (StructScan_frame _ _ _ _ E) as (H1 & H2 & H3 & H4).
  destruct e0; intros H; inversion H; subst;
    unfold keepsIdentity, GetTableRecord; simpl; rewrite ?H4; auto 10.
Qed.

(** A successful [LoadByID] either loaded a row, and the entity is marked
    persisted, or found none, and the entity is the one passed. *)
Lemma LoadByID_ok_state (ti ti' : Entity) (id : Z) (w w' : World) :
  LoadByID ti id w = Some ((ti', None), w') ->
  isNew (tr ti') = false \/ ti' = ti.
Proof.
  destruct (getTableRecordConnection ti) as [c|] eqn:Hc.
  - pose proof (LoadByID_cases ti id w c Hc) as H. simpl in H.
    destruct (conn_Preparex c (selectByID ti) (store w)) as [[e|] s1].
    + rewrite H. discriminate.
    + destruct (conn_StmtQueryx c (selectByID ti) [VInt id] s1) as [[rows|e] s2];
        rewrite H; [|discriminate].
      destruct rows as [|r rows]; intros E; inversion E as [[E1 E2]]; [now right|].
      left. destruct (LoadFromRow_ok _ _ _ E1) as [t [_ ->]]. reflexivity.
  - unfold LoadByID, db_Preparex. rewrite Hc. discriminate.
Qed.

(** The steps of [Save], read back from its result. *)
Lemma Save_inv (ti ti' : Entity) (e : option error) (w w' : World) :
  Save ti w = Some ((ti', e), w') ->
  (isReadOnly (tr ti) = true /\ ti' = ti /\ e = Some "Read-only model" /\ w' = w)
  \/ (isReadOnly (tr ti) = false
      /\ exists x w1,
           executeSaveUpdateQuery (tr ti)
             (if isNew (tr ti) then genSaveQuery ti else genUpdateQuery ti)
             (if isNew (tr ti) then getFieldsValueNoPrimary ti
              else (getFieldsValueNoPrimary ti ++ [VInt (GetPrimaryKeyValue ti)])%list)
             w = Some (x, w1)
           /\ match snd x with
              | Some err => ti' = ti /\ e = Some err /\ w' = w1
              | None =>
                  exists ti1,
                    LoadByID ti (if isNew (tr ti) then fst x else GetPrimaryKeyValue ti) w1
                      = Some ((ti1, e), w')
                    /\ ti' = match e with
                             | Some _ => ti1
                             | None => if isNew (tr ti)
                                       then with_tr ti1 (SetIsNew false (tr ti1))
                                       else ti1
                             end
              end).
Proof.
  unfold Save, GetTableRecord. destruct (isReadOnly (tr ti)).
  - intros H. inversion H. now left.
  - intros H. right. split; [reflexivity|]. destruct (isNew (tr ti)).
    + unfold save, bind, GetTableRecord in H.
      destruct (executeSaveUpdateQuery (tr ti) (genSaveQuery ti)
                  (getFieldsValueNoPrimary ti) w) as [[[id e0] w1]|]; [|discriminate].
      exists (id, e0), w1. split; [reflexivity|]. simpl.
      destruct e0 as [err|]; [inversion H; now subst|].
      destruct (LoadByID ti id w1) as [[[ti1 e1] w2]|]; [|discriminate].
      exists ti1. destruct e1; inversion H; subst; split; reflexivity.
    + unfold update, bind, GetTableRecord in H.
      destruct (executeSaveUpdateQuery (tr ti) (genUpdateQuery ti)
                  (getFieldsValueNoPrimary ti ++ [VInt (GetPrimaryKeyValue ti)]) w)
        as [[[id e0] w1]|]; [|discriminate].
      exists (id, e0), w1. split; [reflexivity|]. simpl.
      destruct e0 as [err|]; [inversion H; now subst|].
      destruct (LoadByID ti (GetPrimaryKeyValue ti) w1) as [[[ti1 e1] w2]|];
        [|discriminate].
      exists ti1. destruct e1; inversion H; subst; split; reflexivity.
Qed.

Lemma LoadByID_frame (ti ti' : Entity) (id : Z) (w w' : World) (e : option error) :
  LoadByID ti id w = Some ((ti', e), w') -> keepsIdentity ti ti'.
Proof.
  destruct (getTableRecordConnection ti) as [c|] eqn:Hc.
  - pose proof (LoadByID_cases ti id w c Hc) as H. simpl in H.
    destruct (conn_Preparex c (selectByID ti) (store w)) as [[err|] s1].
    + rewrite H. intros E. inversion E. apply keepsIdentity_refl.
    + destruct (conn_StmtQueryx c (selectByID ti) [VInt id] s1) as [[rows|err] s2];
        rewrite H; intros E; inversion E as [[E1 E2]]; [|apply keepsIdentity_refl].
      destruct rows as [|r rows].
      * inversion E1. apply keepsIdentity_refl.
      * now apply (LoadFromRow_keepsIdentity r ti ti' e).
  - unfold LoadByID, db_Preparex. rewrite Hc. discriminate.
Qed.

(** ** Save *)

(** X1. A [Save] that returns [nil] was made on a writable entity and
    leaves it marked persisted, whichever of insert and update it ran and
    whether or not the reload found a row. *)
Theorem Save_ok_marks_persisted (ti ti' : Entity) (w w' : World) :
  Save ti w = Some ((ti', None), w') ->
  isNew (GetTableRecord ti') = false /\ isReadOnly (GetTableRecord ti) = false.
Proof.
  intros H. apply Save_inv in H as [(_ & _ & E & _)|(Hro & x & w1 & _ & Hx)];
    [discriminate|].
  split; [|exact Hro]. destruct (snd x) as [err|].
  - destruct Hx as (_ & E & _). discriminate.
  - destruct Hx as (ti1 & Hl & ->). unfold GetTableRecord.
    destruct (isNew (tr ti)) eqn:Hn; [reflexivity|].
    destruct (LoadByID_ok_state _ _ _ _ _ Hl) as [E| ->]; [exact E|exact Hn].
Qed.

(** X2. A [Save] that returns an error leaves the record of the entity as
    it was: new stays new, and the builder and connector are the same. *)
Theorem Save_error_keeps_record (ti ti' : Entity) (w w' : World) (err : error) :
  Save ti w = Some ((ti', Some err), w') ->
  GetTableRecord ti' = GetTableRecord ti.
Proof.
  intros H. apply Save_inv in H as [(_ & -> & _)|(_ & x & w1 & _ & Hx)];
    [reflexivity|].
  destruct (snd x) as [e0|].
  - now destruct Hx as (-> & _).
  - destruct Hx as (ti1 & Hl & ->).
    exact (LoadByID_error _ _ _ _ _ _ Hl).
Qed.

(** X3. Neither [LoadByID] nor [Save], on any outcome, changes the table,
    the key column, the columns and their order, the read-only flag, the
    connector or the builder of the entity. *)
Theorem lifecycle_keeps_identity (ti ti' : Entity) (w w' : World) (e : option error) :
  (forall id, LoadByID ti id w = Some ((ti', e), w') -> keepsIdentity ti ti')
  /\ (Save ti w = Some ((ti', e), w') -> keepsIdentity ti ti').
Proof.
  split; [intros id; apply LoadByID_frame|].
  intros H. apply Save_inv in H as [(_ & -> & _)|(_ & x & w1 & _ & Hx)];
    [apply keepsIdentity_refl|].
  destruct (snd x) as [e0|].
  - destruct Hx as (-> & _). apply keepsIdentity_refl.
  - destruct Hx as (ti1 & Hl & ->). apply LoadByID_frame in Hl.
    destruct e; [exact Hl|]. destruct (isNew (tr ti)); [|exact Hl].
    apply (keepsIdentity_trans _ _ _ Hl). repeat split.
Qed.

(** X4. When the statement of [Save] fails, or runs but its result cannot
    report [LastInsertId], [Save] returns that error after this single call:
    no reload is attempted, the entity is the one passed, and the storage is
    as the statement left it.  This holds for the insert of a new entity and
    for the update of a persisted one alike. *)
Theorem Save_write_error (ti : Entity) (c : SQLConnector) (w : World)
  (r : res SqlResult) (s1 : DB) (err : error) :
  let query := if isNew (GetTableRecord ti) then genSaveQuery ti else genUpdateQuery ti in
  let params := if isNew (GetTableRecord ti) then getFieldsValueNoPrimary ti
                else (getFieldsValueNoPrimary ti ++ [VInt (GetPrimaryKeyValue ti)])%list in
  isReadOnly (GetTableRecord ti) = false ->
  db (GetTableRecord ti) = Some c ->
  conn_Exec c query params (store w) = (r, s1) ->
  (r = Fail err
   \/ exists result n, r = Ok result /\ LastInsertId result = (n, Some err)) ->
  Save ti w =
    Some ((ti, Some err),
          {| store := s1; log := (log w ++ [CallExec query params])%list |}).
Proof.
  intros query params Hro Hc He Hr. unfold Save. rewrite Hro.
  assert (Hx : executeSaveUpdateQuery (GetTableRecord ti) query params w
               = Some ((0, Some err),
                       {| store := s1;
                          log := (log w ++ [CallExec query params])%list |})).
  { unfold executeSaveUpdateQuery, db_Exec. rewrite Hc. run. rewrite He.
    destruct Hr as [->|(result & n & -> & Hl)]; simpl; [reflexivity|].
    rewrite Hl. reflexivity. }
  subst query params. destruct (isNew (GetTableRecord ti)).
  - unfold save, bind. rewrite Hx. reflexivity.
  - unfold update, bind. rewrite Hx. reflexivity.
Qed.

(** X5. [Save] on a new entity whose insert succeeds and whose reload finds
    no row returns [nil] and marks the entity persisted, while every field,
    the key field included, keeps the value it had: the generated key is
    not stored in the entity. *)
Theorem Save_new_no_row (ti : Entity) (c : SQLConnector) (w : World)
  (result : SqlResult) (id : Z) (s1 s2 s3 : DB) :
  isNew (GetTableRecord ti) = true ->
  isReadOnly (GetTableRecord ti) = false ->
  db (GetTableRecord ti) = Some c ->
  conn_Exec c (genSaveQuery ti) (getFieldsValueNoPrimary ti) (store w)
    = (Ok result, s1) ->
  LastInsertId result = (id, None) ->
  conn_Preparex c (selectByID ti) s1 = (None, s2) ->
  conn_StmtQueryx c (selectByID ti) [VInt id] s2 = (Ok [], s3) ->
  exists ti' w',
    Save ti w = Some ((ti', None), w')
    /\ isNew (GetTableRecord ti') = false
    /\ fields ti' = fields ti
    /\ GetPrimaryKeyValue ti' = GetPrimaryKeyValue ti.
Proof.
  intros Hnew Hro Hc He Hid Hp Hq.
  set (w1 := {| store := s1;
                log := (log w ++ [CallExec (genSaveQuery ti)
                                    (getFieldsValueNoPrimary ti)])%list |}).
  pose proof (LoadByID_cases ti id w1 c Hc) as HL. simpl in HL.
  rewrite Hp, Hq in HL.
  eexists _, _. split.
  - apply (Save_new_ok ti ti c w _ result id s1 Hnew Hro Hc He Hid HL).
  - repeat split.
Qed.

(** X6. [Save] on a persisted, writable entity: the update statement is
    executed with the non-key values followed by the current key, then
    [LoadByID] runs with that same key, and its entity is the result.  The
    key reported by [LastInsertId] plays no part. *)
Theorem Save_update_sequence (ti ti1 : Entity) (c : SQLConnector)
  (w w2 : World) (result : SqlResult) (n : Z) (s1 : DB) :
  let params := (getFieldsValueNoPrimary ti ++ [VInt (GetPrimaryKeyValue ti)])%list in
  isNew (GetTableRecord ti) = false ->
  isReadOnly (GetTableRecord ti) = false ->
  db (GetTableRecord ti) = Some c ->
  conn_Exec c (genUpdateQuery ti) params (store w) = (Ok result, s1) ->
  LastInsertId result = (n, None) ->
  LoadByID ti (GetPrimaryKeyValue ti)
    {| store := s1; log := (log w ++ [CallExec (genUpdateQuery ti) params])%list |}
    = Some ((ti1, None), w2) ->
  Save ti w = Some ((ti1, None), w2)
  /\ log w2 = (log w ++ [CallExec (genUpdateQuery ti) params;
                         CallPreparex (selectByID ti);
                         CallStmtQueryx (selectByID ti) [VInt (GetPrimaryKeyValue ti)];
                         CallRowsClose;
                         CallStmtClose (selectByID ti)])%list.
Proof.
  intros params Hnew Hro Hc He Hid Hload. split.
  - unfold Save. rewrite Hro, Hnew. unfold update, bind at 1 2. fold params.
    rewrite (executeSaveUpdateQuery_ok _ c _ _ w result n s1 Hc He Hid).
    unfold bind. rewrite Hload. reflexivity.
  - destruct (LoadByID_log _ _ _ _ _ _ Hload) as [l [Hl Hok]].
    rewrite Hl, (Hok eq_refl). simpl. rewrite <- app_assoc. reflexivity.
Qed.

(** ** LoadByID *)

Lemma convertAssign_alloc f v : convertAssign (allocIfNil f) v = convertAssign f v.
Proof. destruct f as [z|s|[z|]|[s|]]; reflexivity. Qed.

(** X7. [LoadByID] on a select whose first row has distinct columns, each
    naming a field and holding a value that converts into the type of that
    field: the load succeeds, the entity is marked persisted, every field
    the row names holds the row's value converted to the field's type, and
    every other field keeps its own.  Rows after the first are not looked
    at. *)
Theorem LoadByID_loads_row (ti : Entity) (id : Z) (w : World) (c : SQLConnector)
  (s1 s2 : DB) (cols : Row) (rest : Rows) :
  getTableRecordConnection ti = Some c ->
  conn_Preparex c (selectByID ti) (store w) = (None, s1) ->
  conn_StmtQueryx c (selectByID ti) [VInt id] s1 = (Ok (cols :: rest), s2) ->
  distinct (map fst cols) = true ->
  forallb (scans (fields ti)) cols = true ->
  exists ti' w',
    LoadByID ti id w = Some ((ti', None), w')
    /\ isNew (GetTableRecord ti') = false
    /\ (forall n v f, In (n, v) cols -> lookup n (fields ti) = Some f ->
          lookup n (fields ti') = Some (fst (convertAssign f v)))
    /\ (forall n, ~ In n (map fst cols) -> lookup n (fields ti') = lookup n (fields ti)).
Proof.
  intros Hc Hp Hq Hd Hall.
  rewrite forallb_forall in Hall.
  assert (Hnames : forall n v, In (n, v) cols ->
            existsb (String.eqb n) (map fst cols) = true).
  { intros n v Hin. apply existsb_eqb_true. now apply (in_map fst) in Hin. }
  assert (Hconv : forall n v, In (n, v) cols ->
            exists f, lookup n (allocate cols (fields ti)) = Some f
                      /\ snd (convertAssign f v) = None).
  { intros n v Hin. specialize (Hall _ Hin). unfold scans in Hall. simpl in Hall.
    rewrite allocate_lookup, (Hnames n v Hin).
    destruct (lookup n (fields ti)) as [f|]; [|discriminate]. simpl.
    eexists. split; [reflexivity|]. rewrite convertAssign_alloc.
    destruct (snd (convertAssign f v)); [discriminate|reflexivity]. }
  assert (Hm : missingField cols (fields ti) = None).
  { apply missingField_none. intros n v Hin. specialize (Hall _ Hin).
    unfold scans, hasField in *. simpl in Hall.
    destruct (lookup n (fields ti)); [reflexivity|discriminate]. }
  apply distinct_NoDup in Hd.
  destruct (scanColumns_ok cols 0 (allocate cols (fields ti)) Hd Hconv)
    as (H1 & H2 & H3).
  destruct (StructScan cols ti) as [t e] eqn:E.
  destruct (StructScan_frame _ _ _ _ E) as (_ & _ & _ & Htr).
  destruct (StructScan_fields cols ti Hm) as [Hf Hs]. rewrite E in Hf, Hs.
  cbn [fst snd] in Hf, Hs. rewrite H1 in Hs. subst e.
  rewrite (LoadByID_row ti id w c s1 s2 _ rest Hc Hp Hq).
  unfold LoadFromRow. rewrite E.
  eexists _, _. split; [reflexivity|]. split; [reflexivity|]. simpl. rewrite Hf. split.
  - intros n v f Hin Hl. rewrite <- convertAssign_alloc.
    apply H2; [exact Hin|]. rewrite allocate_lookup, (Hnames n v Hin), Hl. reflexivity.
  - intros n Hn. rewrite H3 by exact Hn. rewrite allocate_lookup.
    destruct (existsb (String.eqb n) (map fst cols)) eqn:Ex; [|reflexivity].
    apply existsb_exists in Ex as [m [Hin Hm']]. apply String.eqb_eq in Hm'.
    subst m. contradiction.
Qed.

(** X8. Once [LoadByID] has prepared its statement, it returns with the
    statement closed, whatever the query answers: the calls are the
    prepare, the query with the key as only parameter, the close of the
    rows exactly when the query returned rows and not an error, and the
    close of the statement. *)
Theorem LoadByID_closes_statement (ti : Entity) (id : Z) (w : World)
  (c : SQLConnector) (s1 s2 : DB) (r : res Rows) :
  getTableRecordConnection ti = Some c ->
  conn_Preparex c (selectByID ti) (store w) = (None, s1) ->
  conn_StmtQueryx c (selectByID ti) [VInt id] s1 = (r, s2) ->
  exists out,
    LoadByID ti id w =
      Some (out,
            {| store := s2;
               log := (log w ++ [CallPreparex (selectByID ti);
                                 CallStmtQueryx (selectByID ti) [VInt id]]
                         ++ match r with
                            | Ok _ => [CallRowsClose]
                            | Fail _ => []
                            end
                         ++ [CallStmtClose (selectByID ti)])%list |}).
Proof.
  intros Hc Hp Hq. pose proof (LoadByID_cases ti id w c Hc) as H. simpl in H.
  rewrite Hp, Hq in H. destruct r as [rows|err]; rewrite H; eexists; reflexivity.
Qed.

(** ** Delete *)

(** X9. Once [Delete] has prepared its statement, it makes the same three
    calls on every outcome: the prepare, the execution with the entity's
    current key as only parameter, and the close of the statement; the
    storage is as the execution left it. *)
Theorem Delete_calls (ti : Entity) (w : World) (c : SQLConnector) (s1 : DB) :
  getTableRecordConnection ti = Some c ->
  conn_Prepare c (genDeleteQuery ti) (store w) = (None, s1) ->
  exists out,
    Delete ti w =
      Some (out,
            {| store := snd (conn_StmtExec c (genDeleteQuery ti)
                               [VInt (GetPrimaryKeyValue ti)] s1);
               log := (log w ++ [CallPrepare (genDeleteQuery ti);
                                 CallStmtExec (genDeleteQuery ti)
                                   [VInt (GetPrimaryKeyValue ti)];
                                 CallStmtClose (genDeleteQuery ti)])%list |}).
Proof.
  intros Hc Hp. unfold Delete, db_Prepare, stmt_Exec, stmt_Close.
  rewrite Hc. run. rewrite Hp. simpl.
  destruct (conn_StmtExec c (genDeleteQuery ti) [VInt (GetPrimaryKeyValue ti)] s1)
    as [[result|err] s2]; simpl.
  - destruct (RowsAffected result) as [rows [err|]]; simpl;
      repeat rewrite <- app_assoc; eexists; reflexivity.
  - repeat rewrite <- app_assoc. eexists; reflexivity.
Qed.

(** ** Multi-row reads *)

(** When no row fails, the loop appends one loaded entity per row, in row
    order. *)
Lemma loadRows_ok (ntm : NewTableModel) (rows : Rows) :
  Forall (fun r => ~ scanFails ntm r) rows ->
  forall acc, exists l,
    loadRows ntm rows acc = ((acc ++ l)%list, None)
    /\ Forall2 (fun r e => LoadFromRow r (ntm tt) = (e, None)) rows l.
Proof.
  induction 1 as [|r rows Hr _ IH]; intros acc; simpl.
  - exists []. rewrite app_nil_r. split; [reflexivity|constructor].
  - unfold scanFails in Hr.
    destruct (LoadFromRow r (ntm tt)) as [ti' [err|]] eqn:E.
    + exfalso. apply Hr. unfold LoadFromRow in E.
      destruct (StructScan r (ntm tt)) as [t [e|]]; [exact I|discriminate].
    + destruct (IH (acc ++ [ti'])%list) as [l [-> HF]].
      exists (ti' :: l). rewrite <- app_assoc. split; [reflexivity|].
      now constructor.
Qed.

Lemma loaded_entities (ntm : NewTableModel) (rows : Rows) (l : list Entity) :
  Forall2 (fun r e => LoadFromRow r (ntm tt) = (e, None)) rows l ->
  Forall (loadedFrom ntm) l.
Proof.
  induction 1 as [|r e rows l Hre _ IH]; constructor; [|exact IH].
  split; [|now apply (LoadFromRow_keepsIdentity r _ _ None)].
  destruct (LoadFromRow_ok _ _ _ Hre) as [fs [_ ->]]. reflexivity.
Qed.

(** X10. [All], when the select succeeds and no row fails to scan, makes
    that one call and returns, with a [nil] error, exactly one entity per
    row, in row order, each a fresh entity of the constructor loaded from
    its row: marked persisted, with the constructor's connector, flags and
    columns. *)
Theorem All_one_entity_per_row (ntm : NewTableModel) (w : World) (c : SQLConnector)
  (rows : Rows) (s1 : DB) :
  db (GetTableRecord (ntm tt)) = Some c ->
  conn_Queryx c (selectAll (ntm tt)) [] (store w) = (Ok rows, s1) ->
  Forall (fun r => ~ scanFails ntm r) rows ->
  exists l,
    All ntm w = Some ((l, None),
                      {| store := s1;
                         log := (log w ++ [CallQueryx (selectAll (ntm tt))])%list |})
    /\ Forall2 (fun r e => LoadFromRow r (ntm tt) = (e, None)) rows l
    /\ List.length l = List.length rows
    /\ Forall (loadedFrom ntm) l.
Proof.
  intros Hc Hq Hok. unfold All, db_Queryx. rewrite Hc. run. rewrite Hq. simpl.
  destruct (loadRows_ok ntm rows Hok []) as [l [-> HF]]. simpl.
  exists l. split; [reflexivity|]. split; [exact HF|]. split.
  - symmetry. now apply (Forall2_length HF).
  - now apply (loaded_entities ntm rows).
Qed.

(** X11. Whenever [All] returns an error, from the query or from a row, the
    collection it returns with it is [nil]. *)
Theorem All_error_returns_nil (ntm : NewTableModel) (w w' : World)
  (l : list Entity) (err : error) :
  All ntm w = Some ((l, Some err), w') -> l = [].
Proof.
  unfold All, db_Queryx.
  destruct (db (GetTableRecord (ntm tt))) as [c|]; run; [|discriminate].
  destruct (conn_Queryx c _ [] (store w)) as [[rows|e] s1]; simpl.
  - intros H. inversion H as [[H1 H2]].
    now apply (loadRows_error_nil ntm rows [] l err).
  - intros H. now inversion H.
Qed.

(** ** ExecQuery *)

(** X12. [ExecQuery], when the staged statement is prepared and queried
    with the staged parameters and no row fails to scan: the calls are the
    prepare, the query, the close of the rows and the close of the
    statement; the entity comes back with its builder reset and nothing
    else changed; the result holds one loaded entity per row, in row
    order. *)
Theorem ExecQuery_ok (ti : Entity) (ntm : NewTableModel) (w : World)
  (c : SQLConnector) (rows : Rows) (s1 s2 : DB) :
  let query := BuildQuery (builder (GetTableRecord ti)) (GetTableName ti) in
  let params := Params (builder (GetTableRecord ti)) in
  db (GetTableRecord ti) = Some c ->
  conn_Preparex c query (store w) = (None, s1) ->
  conn_StmtQueryx c query params s1 = (Ok rows, s2) ->
  Forall (fun r => ~ scanFails ntm r) rows ->
  exists l,
    ExecQuery ti ntm w =
      Some ((with_tr ti (SetBuilder {| clauses := []; Params := [] |} (tr ti)),
             (l, None)),
            {| store := s2;
               log := (log w ++ [CallPreparex query; CallStmtQueryx query params;
                                 CallRowsClose; CallStmtClose query])%list |})
    /\ Forall2 (fun r e => LoadFromRow r (ntm tt) = (e, None)) rows l
    /\ Forall (loadedFrom ntm) l.
Proof.
  intros query params Hc Hp Hq Hok.
  unfold ExecQuery, PrepareStmt, db_Preparex, stmt_Queryx, rows_Close, stmt_Close.
  rewrite Hc. run. fold query. rewrite Hp. simpl. fold params. rewrite Hq. simpl.
  destruct (loadRows_ok ntm rows Hok []) as [l [-> HF]]. simpl.
  exists l. split; [|split; [exact HF|now apply (loaded_entities ntm rows)]].
  repeat rewrite <- app_assoc. reflexivity.
Qed.

(** X13. Whenever [ExecQuery] returns an error, from the prepare, the query
    or a row, the entity comes back exactly as passed, staged predicates
    and parameters included, and the collection is [nil]; a statement that
    was prepared has been closed. *)
Theorem ExecQuery_error_keeps_entity (ti ti' : Entity) (ntm : NewTableModel)
  (w w' : World) (l : list Entity) (err : error) :
  let query := BuildQuery (builder (GetTableRecord ti)) (GetTableName ti) in
  ExecQuery ti ntm w = Some ((ti', (l, Some err)), w') ->
  ti' = ti /\ l = []
  /\ (log w' = (log w ++ [CallPreparex query])%list
      \/ exists calls,
           log w' = (log w ++ CallPreparex query :: calls ++ [CallStmtClose query])%list).
Proof.
  intros query.
  unfold ExecQuery, PrepareStmt, db_Preparex, stmt_Queryx, rows_Close, stmt_Close.
  destruct (db (GetTableRecord ti)) as [c|]; run; [|discriminate]. fold query.
  destruct (conn_Preparex c query (store w)) as [[e|] s1]; simpl.
  { intros H. inversion H; subst. repeat split. now left. }
  destruct (conn_StmtQueryx c query _ s1) as [[rows|e] s2]; simpl.
  - destruct (loadRows ntm rows []) as [tiList [e|]]; simpl;
      intros H; inversion H; subst. repeat split. right.
    eexists [_; _]. simpl. repeat rewrite <- app_assoc. reflexivity.
  - intros H. inversion H; subst. repeat split. right.
    eexists [_]. simpl. repeat rewrite <- app_assoc. reflexivity.
Qed.

(** ** Records without a connector *)

(** X14. On a record that holds no connector, as [NewTableRecord] leaves
    it until [SetSQLConnection] is called, [LoadByID], [Delete],
    [ExecQuery], [All] and a writable [Save] panic on their first connector
    call, while a read-only [Save] returns its error, the connector not
    being needed for it. *)
Theorem panics_without_connector (ti : Entity) (ntm : NewTableModel) (id : Z)
  (w : World) :
  db (GetTableRecord ti) = None ->
  LoadByID ti id w = None
  /\ Delete ti w = None
  /\ ExecQuery ti ntm w = None
  /\ (db (GetTableRecord (ntm tt)) = None -> All ntm w = None)
  /\ (isReadOnly (GetTableRecord ti) = false -> Save ti w = None)
  /\ (isReadOnly (GetTableRecord ti) = true ->
      Save ti w = Some ((ti, Some "Read-only model"), w)).
Proof.
  intros Hc. split; [|split; [|split; [|split; [|split]]]].
  - unfold LoadByID, getTableRecordConnection, db_Preparex. now rewrite Hc.
  - unfold Delete, getTableRecordConnection, db_Prepare. now rewrite Hc.
  - unfold ExecQuery, PrepareStmt, db_Preparex. now rewrite Hc.
  - intros Hn. unfold All, db_Queryx. now rewrite Hn.
  - intros Hro. unfold Save. rewrite Hro.
    destruct (isNew (GetTableRecord ti)).
    + unfold save, bind, executeSaveUpdateQuery, db_Exec. now rewrite Hc.
    + unfold update, bind, executeSaveUpdateQuery, db_Exec. now rewrite Hc.
  - intros Hro. unfold Save. now rewrite Hro.
Qed.

(** ** Where errors come from *)

(** X15. An error returned by [LoadByID] is, unchanged, the error of the
    prepare, of the query, or of the scan of the first row; and the record
    of the entity is then as it was, so a new entity stays new. *)
Theorem LoadByID_error_source (ti ti' : Entity) (id : Z) (w w' : World)
  (c : SQLConnector) (err : error) :
  let query := selectByID ti in
  getTableRecordConnection ti = Some c ->
  LoadByID ti id w = Some ((ti', Some err), w') ->
  GetTableRecord ti' = GetTableRecord ti
  /\ (fst (conn_Preparex c query (store w)) = Some err
      \/ exists s1,
           conn_Preparex c query (store w) = (None, s1)
           /\ (fst (conn_StmtQueryx c query [VInt id] s1) = Fail err
               \/ exists r rest,
                    fst (conn_StmtQueryx c query [VInt id] s1) = Ok (r :: rest)
                    /\ snd (StructScan r ti) = Some err)).
Proof.
  intros query Hc H. split; [exact (LoadByID_error _ _ _ _ _ _ H)|].
  pose proof (LoadByID_cases ti id w c Hc) as HC. simpl in HC. fold query in HC.
  destruct (conn_Preparex c query (store w)) as [[e|] s1].
  - rewrite HC in H. inversion H. now left.
  - right. exists s1. split; [reflexivity|].
    destruct (conn_StmtQueryx c query [VInt id] s1) as [[rows|e] s2];
      rewrite HC in H; inversion H as [[E1 E2]]; [|now left].
    destruct rows as [|r rest]; [discriminate|].
    right. exists r, rest. split; [reflexivity|].
    unfold LoadFromRow in E1. destruct (StructScan r ti) as [t [e|]];
      inversion E1. reflexivity.
Qed.

(** X16. An error returned by [Delete] comes with the count 0 and is,
    unchanged, the error of the prepare or of the execution: no other
    error of the connector reaches the caller of [Delete]. *)
Theorem Delete_error_source (ti : Entity) (w w' : World) (c : SQLConnector)
  (n : Z) (err : error) :
  let query := genDeleteQuery ti in
  getTableRecordConnection ti = Some c ->
  Delete ti w = Some ((n, Some err), w') ->
  n = 0
  /\ (fst (conn_Prepare c query (store w)) = Some err
      \/ exists s1,
           conn_Prepare c query (store w) = (None, s1)
           /\ fst (conn_StmtExec c query [VInt (GetPrimaryKeyValue ti)] s1) = Fail err).
Proof.
  intros query Hc. unfold Delete, db_Prepare, stmt_Exec, stmt_Close.
  rewrite Hc. run. fold query.
  destruct (conn_Prepare c query (store w)) as [[e|] s1]; simpl.
  - intros H. inversion H. split; [reflexivity|now left].
  - destruct (conn_StmtExec c query [VInt (GetPrimaryKeyValue ti)] s1)
      as [[result|e] s2] eqn:E; simpl.
    + destruct (RowsAffected result) as [rows [e|]]; simpl; discriminate.
    + intros H. inversion H; subst. split; [reflexivity|]. right. exists s1.
      split; [reflexivity|]. now rewrite E.
Qed.

(** ** Saving twice *)

(** X17. After a [Save] that returned [nil], a second [Save] of the entity
    it left takes the update path: it returns, and its first call executes
    the update statement with the non-key values followed by the key; the
    row is not inserted a second time. *)
Theorem Save_again_updates (ti ti1 : Entity) (c : SQLConnector) (w w1 : World) :
  db (GetTableRecord ti) = Some c ->
  Save ti w = Some ((ti1, None), w1) ->
  exists out w2 calls,
    Save ti1 w1 = Some (out, w2)
    /\ log w2 = (log w1
                   ++ CallExec (genUpdateQuery ti1)
                        (getFieldsValueNoPrimary ti1 ++ [VInt (GetPrimaryKeyValue ti1)])
                   :: calls)%list.
Proof.
  intros Hc H.
  assert (Hst : isNew (tr ti1) = false /\ keepsIdentity ti ti1
                /\ isReadOnly (tr ti) = false).
  { apply Save_inv in H as [(_ & _ & E & _)|(Hro & x & w0 & _ & Hx)];
      [discriminate|].
    destruct (snd x) as [err|]; [destruct Hx as (_ & E & _); discriminate|].
    destruct Hx as (t & Hl & ->). pose proof (LoadByID_frame _ _ _ _ _ _ Hl) as Hf.
    destruct (isNew (tr ti)) eqn:Hn.
    - split; [reflexivity|]. split; [|exact Hro].
      apply (keepsIdentity_trans _ _ _ Hf). repeat split.
    - split; [|split; [exact Hf|exact Hro]].
      destruct (LoadByID_ok_state _ _ _ _ _ Hl) as [E| ->]; [exact E|exact Hn]. }
  destruct Hst as (Hnew & (_ & _ & _ & Hro1 & Hdb & _) & Hro).
  assert (Hc1 : db (GetTableRecord ti1) = Some c)
    by (unfold GetTableRecord in *; congruence).
  unfold Save, GetTableRecord. rewrite Hro1, Hro, Hnew. unfold update, bind at 1 2.
  destruct (executeSaveUpdateQuery_returns (GetTableRecord ti1) c (genUpdateQuery ti1)
              (getFieldsValueNoPrimary ti1 ++ [VInt (GetPrimaryKeyValue ti1)]) w1 Hc1)
    as [[lastID e] [s1 ->]].
  destruct e as [err|].
  - eexists _, _, []. split; reflexivity.
  - unfold bind.
    match goal with |- context [LoadByID ti1 ?i ?w0] =>
      destruct (LoadByID_returns ti1 i w0 c Hc1) as [[t e] [w2 Hl]]
    end.
    rewrite Hl. destruct (LoadByID_log _ _ _ _ _ _ Hl) as [l [Hlog _]].
    simpl in Hlog. rewrite <- app_assoc in Hlog. simpl in Hlog.
    destruct e; eexists _, _, _; (split; [reflexivity|exact Hlog]).
Qed.

End Lifecycle_properties.


(** ** The further properties at concrete entities *)

Lemma Save_ok_marks_persisted_witness :
  exists ti' w',
    Save Mem.mario Mem.empty = Some ((ti', None), w')
    /\ isNew (GetTableRecord ti') = false
    /\ isReadOnly (GetTableRecord Mem.mario) = false.
Proof.
  eexists _, _. split; [cbv; reflexivity|].
  eapply (Save_ok_marks_persisted Mem.mario _ Mem.empty _). cbv; reflexivity.
Defined.

Lemma Save_error_keeps_record_witness :
  let c := Mem.failExec "connection refused" Mem.users in
  let u := Mem.user c true false 0 (VStr "Mario") (VStr "Rossi") (VStr "M") in
  exists ti' w',
    Save u Mem.empty = Some ((ti', Some "connection refused"), w')
    /\ GetTableRecord ti' = GetTableRecord u.
Proof.
  intros c u. eexists _, _. split; [cbv; reflexivity|].
  eapply (Save_error_keeps_record u _ Mem.empty _ "connection refused").
  cbv; reflexivity.
Defined.

Lemma lifecycle_keeps_identity_witness :
  let u := Mem.user Mem.users true false 0 VNull VNull VNull in
  (exists ti' w', LoadByID u 2 Mem.two = Some ((ti', None), w') /\ keepsIdentity u ti')
  /\ (exists ti' w', Save Mem.mario Mem.empty = Some ((ti', None), w')
                     /\ keepsIdentity Mem.mario ti').
Proof.
  intros u. split.
  - eexists _, _. split; [cbv; reflexivity|].
    eapply (proj1 (lifecycle_keeps_identity u _ Mem.two _ None) 2). cbv; reflexivity.
  - eexists _, _. split; [cbv; reflexivity|].
    eapply (proj2 (lifecycle_keeps_identity Mem.mario _ Mem.empty _ None)).
    cbv; reflexivity.
Defined.

Lemma Save_write_error_witness :
  let c := Mem.failLastInsertId "LastInsertId not supported" Mem.users in
  let u := Mem.user c false false 1 (VStr "Marco") (VStr "Rossi") (VStr "M") in
  exists w',
    Save u Mem.two = Some ((u, Some "LastInsertId not supported"), w')
    /\ Mem.table (store w') = [(1, [VStr "Marco"; VStr "Rossi"; VStr "M"]);
                               (2, [VStr "Anna"; VStr "Bianchi"; VStr "F"])].
Proof.
  intros c u. eexists. split.
  - eapply (Save_write_error u c Mem.two).
    + reflexivity.
    + reflexivity.
    + cbv. reflexivity.
    + right. eexists _, _. split; reflexivity.
  - reflexivity.
Defined.

Lemma Save_new_no_row_witness :
  let c := Mem.findsNothing Mem.users in
  let u := Mem.user c true false 0 (VStr "Mario") (VStr "Rossi") (VStr "M") in
  exists ti' w',
    Save u Mem.empty = Some ((ti', None), w')
    /\ isNew (GetTableRecord ti') = false
    /\ fields ti' = fields u
    /\ GetPrimaryKeyValue ti' = 0.
Proof.
  intros c u.
  set (s := {| Mem.next_id := 2;
               Mem.table := [(1, [VStr "Mario"; VStr "Rossi"; VStr "M"])] |}).
  apply (Save_new_no_row u c Mem.empty
           {| LastInsertId := (1, None); RowsAffected := (1, None) |} 1 s s s);
    reflexivity.
Defined.

Lemma Save_update_sequence_witness :
  let u := Mem.user Mem.users false false 1 (VStr "Marco") (VStr "Rossi") (VStr "M") in
  exists ti' w',
    Save u Mem.two = Some ((ti', None), w')
    /\ log w' =
         [CallExec "UPDATE users SET name=?,lastname=?,gender=? WHERE id = ?"
            [VStr "Marco"; VStr "Rossi"; VStr "M"; VInt 1];
          CallPreparex "SELECT id,name,lastname,gender FROM users WHERE id = ?";
          CallStmtQueryx "SELECT id,name,lastname,gender FROM users WHERE id = ?"
            [VInt 1];
          CallRowsClose;
          CallStmtClose "SELECT id,name,lastname,gender FROM users WHERE id = ?"].
Proof.
  intros u. eexists _, _.
  eapply (Save_update_sequence u _ Mem.users Mem.two _
            {| LastInsertId := (0, None); RowsAffected := (1, None) |} 0
            {| Mem.next_id := 3;
               Mem.table := [(1, [VStr "Marco"; VStr "Rossi"; VStr "M"]);
                             (2, [VStr "Anna"; VStr "Bianchi"; VStr "F"])] |});
    cbv; reflexivity.
Defined.

Lemma LoadByID_loads_row_witness :
  let u := Mem.user Mem.users true false 0 VNull VNull (VStr "?") in
  exists ti' w',
    LoadByID u 2 Mem.two = Some ((ti', None), w')
    /\ isNew (GetTableRecord ti') = false
    /\ lookup "name" (fields ti') = Some (FPtrString (Some "Anna"))
    /\ lookup "id" (fields ti') = Some (FInt64 2).
Proof.
  intros u.
  destruct (LoadByID_loads_row u 2 Mem.two Mem.users (store Mem.two) (store Mem.two)
              [("id", VInt 2); ("name", VStr "Anna"); ("lastname", VStr "Bianchi");
               ("gender", VStr "F")] [])
    as (ti' & w' & H1 & H2 & H3 & _); try reflexivity.
  exists ti', w'. split; [exact H1|]. split; [exact H2|]. split.
  - apply (H3 "name" (VStr "Anna") (FPtrString None)); [simpl; tauto|reflexivity].
  - apply (H3 "id" (VInt 2) (FInt64 0)); [simpl; tauto|reflexivity].
Defined.

Lemma LoadByID_closes_statement_witness :
  let u := Mem.user Mem.users false false 9 VNull VNull VNull in
  exists out w',
    LoadByID u 9 Mem.two = Some (out, w')
    /\ log w' = [CallPreparex (selectByID u);
                 CallStmtQueryx (selectByID u) [VInt 9];
                 CallRowsClose;
                 CallStmtClose (selectByID u)].
Proof.
  intros u.
  destruct (LoadByID_closes_statement u 9 Mem.two Mem.users (store Mem.two)
              (store Mem.two) (Ok [])) as [out H]; try reflexivity.
  eexists out, _. split; [exact H|reflexivity].
Defined.

Lemma Delete_calls_witness :
  let u := Mem.user Mem.users false false 2 (VStr "Anna") (VStr "Bianchi") (VStr "F") in
  exists out w',
    Delete u Mem.two = Some (out, w')
    /\ log w' = [CallPrepare "DELETE FROM users WHERE id = ?";
                 CallStmtExec "DELETE FROM users WHERE id = ?" [VInt 2];
                 CallStmtClose "DELETE FROM users WHERE id = ?"]
    /\ Mem.table (store w') = [(1, [VStr "Mario"; VStr "Rossi"; VStr "M"])].
Proof.
  intros u.
  destruct (Delete_calls u Mem.two Mem.users (store Mem.two)) as [out H];
    try reflexivity.
  eexists out, _. split; [exact H|]. split; reflexivity.
Defined.

Lemma All_one_entity_per_row_witness :
  exists l w',
    All (Mem.NewUser Mem.users) Mem.two = Some ((l, None), w')
    /\ List.length l = 2%nat
    /\ Forall (loadedFrom (Mem.NewUser Mem.users)) l.
Proof.
  destruct (All_one_entity_per_row (Mem.NewUser Mem.users) Mem.two Mem.users
              (map (Mem.rowOf "id" ["name"; "lastname"; "gender"])
                   (Mem.table (store Mem.two)))
              (store Mem.two))
    as (l & H1 & _ & H3 & H4).
  - reflexivity.
  - reflexivity.
  - repeat constructor; intros H; exact H.
  - eexists l, _. split; [exact H1|]. split; [exact H3|exact H4].
Defined.

Lemma All_error_returns_nil_witness :
  let c := Mem.failLastRow Mem.nullKey Mem.users in
  exists l err w',
    All (Mem.NewUser c) Mem.two = Some ((l, Some err), w')
    /\ l = [].
Proof.
  intros c. eexists _, _, _. split; [cbv; reflexivity|].
  eapply (All_error_returns_nil (Mem.NewUser c) Mem.two). cbv; reflexivity.
Defined.

Lemma ExecQuery_ok_witness :
  exists ti' l w',
    ExecQuery (Mem.staged Mem.users) (Mem.NewUser Mem.users) Mem.two
      = Some ((ti', (l, None)), w')
    /\ builder (GetTableRecord ti') = {| clauses := []; Params := [] |}
    /\ fields ti' = fields (Mem.staged Mem.users)
    /\ Forall (loadedFrom (Mem.NewUser Mem.users)) l.
Proof.
  destruct (ExecQuery_ok (Mem.staged Mem.users) (Mem.NewUser Mem.users) Mem.two
              Mem.users
              (map (Mem.rowOf "id" ["name"; "lastname"; "gender"])
                   (Mem.table (store Mem.two)))
              (store Mem.two) (store Mem.two))
    as (l & H1 & _ & H3).
  - reflexivity.
  - reflexivity.
  - reflexivity.
  - repeat constructor; intros H; exact H.
  - eexists _, l, _. split; [exact H1|]. split; [reflexivity|].
    split; [reflexivity|exact H3].
Defined.

Lemma ExecQuery_error_keeps_entity_witness :
  let c := Mem.failLastRow Mem.nullKey Mem.users in
  exists ti' l err w',
    ExecQuery (Mem.staged c) (Mem.NewUser c) Mem.two
      = Some ((ti', (l, Some err)), w')
    /\ ti' = Mem.staged c /\ l = [].
Proof.
  intros c. eexists _, _, _, _. split; [cbv; reflexivity|].
  destruct (ExecQuery_error_keeps_entity (Mem.staged c) (Mem.staged c) (Mem.NewUser c)
              Mem.two
              {| store := store Mem.two;
                 log := [CallPreparex "SELECT * FROM users WHERE gender = ?";
                         CallStmtQueryx "SELECT * FROM users WHERE gender = ?" [VStr "M"];
                         CallRowsClose;
                         CallStmtClose "SELECT * FROM users WHERE gender = ?"] |}
              []
              (scanError 0 "id" "converting NULL to int64 is unsupported"))
    as (H1 & H2 & _).
  - reflexivity.
  - split; [exact H1|exact H2].
Defined.

Lemma LoadByID_error_source_witness :
  let c := Mem.failPreparex "connection lost" Mem.users in
  let u := Mem.user c true false 0 VNull VNull VNull in
  exists ti' w',
    LoadByID u 1 Mem.two = Some ((ti', Some "connection lost"), w')
    /\ GetTableRecord ti' = GetTableRecord u
    /\ fst (conn_Preparex c (selectByID u) (store Mem.two)) = Some "connection lost".
Proof.
  intros c u. eexists u, _. split; [cbv; reflexivity|].
  destruct (LoadByID_error_source u u 1 Mem.two
              {| store := store Mem.two; log := [CallPreparex (selectByID u)] |}
              c "connection lost") as (H1 & _).
  - reflexivity.
  - reflexivity.
  - split; [exact H1|reflexivity].
Defined.

Lemma Delete_error_source_witness :
  let c := Mem.failPrepare "connection lost" Mem.users in
  let u := Mem.user c false false 1 (VStr "Mario") (VStr "Rossi") (VStr "M") in
  exists n w',
    Delete u Mem.two = Some ((n, Some "connection lost"), w')
    /\ n = 0
    /\ Mem.table (store w') = Mem.table (store Mem.two).
Proof.
  intros c u. eexists _, _. split; [cbv; reflexivity|]. split; [|reflexivity].
  eapply (Delete_error_source u Mem.two _ c).
  - reflexivity.
  - cbv; reflexivity.
Defined.

Lemma Save_again_updates_witness :
  exists ti1 w1 out w2 calls,
    Save Mem.mario Mem.empty = Some ((ti1, None), w1)
    /\ Save ti1 w1 = Some (out, w2)
    /\ log w2 = (log w1
                   ++ CallExec "UPDATE users SET name=?,lastname=?,gender=? WHERE id = ?"
                        [VStr "Mario"; VStr "Rossi"; VStr "M"; VInt 1]
                   :: calls)%list
    /\ List.length (Mem.table (store w2)) = 1%nat.
Proof.
  eexists _, _. 
  assert (H : Save Mem.mario Mem.empty
              = Some ((Mem.user Mem.users false false 1 (VStr "Mario") (VStr "Rossi")
                         (VStr "M"), None),
                      {| store := {| Mem.next_id := 2;
                                     Mem.table := [(1, [VStr "Mario"; VStr "Rossi";
                                                        VStr "M"])] |};
                         log := [CallExec (genSaveQuery Mem.mario)
                                   (getFieldsValueNoPrimary Mem.mario);
                                 CallPreparex (selectByID Mem.mario);
                                 CallStmtQueryx (selectByID Mem.mario) [VInt 1];
                                 CallRowsClose;
                                 CallStmtClose (selectByID Mem.mario)] |}))
    by reflexivity.
  destruct (Save_again_updates Mem.mario _ Mem.users Mem.empty _ eq_refl H)
    as (out & w2 & calls & H1 & H2).
  exists out, w2, calls. split; [exact H|]. split; [exact H1|]. split; [exact H2|].
  cbv in H1. injection H1 as _ <-. reflexivity.
Defined.

Lemma panics_without_connector_witness :
  let u := {| tableName := "users"; primaryKeyName := "id";
              fields := [("id", FInt64 0)];
              tr := NewTableRecord (DB := Mem.Store) true false;
              keyed := eq_refl |} in
  LoadByID u 1 Mem.empty = None
  /\ Delete u Mem.empty = None
  /\ Save u Mem.empty = None
  /\ Save (with_tr u (NewTableRecord true true)) Mem.empty
     = Some ((with_tr u (NewTableRecord true true), Some "Read-only model"), Mem.empty).
Proof.
  intros u.
  destruct (panics_without_connector u (fun _ => u) 1 Mem.empty eq_refl)
    as (H1 & H2 & _ & _ & H5 & _).
  destruct (panics_without_connector (with_tr u (NewTableRecord true true))
              (fun _ => u) 1 Mem.empty eq_refl) as (_ & _ & _ & _ & _ & H6).
  split; [exact H1|]. split; [exact H2|]. split; [exact (H5 eq_refl)|exact (H6 eq_refl)].
Defined.
